(** * Coordinate-ascent optimizer of [strategy_optimizers]

    A shallow embedding of [crates/strategy_optimizers/src/optimization.py]
    (class [Optimization]) and the properties of its design description.

    Python values are embedded as follows.
    - A Python [int] is a [Z]; a Python [float] is a binary64 number, Rocq's
      primitive [float]; a [str] is a [string].
    - A [Param] is a dict object: its three entries and the identity of the
      object, which the [is not] test of [optimize_all] compares.
    - The class attribute [results_of_single_param_optimization] is one list
      shared by all calls: it lives in the [state] that every operation
      threads, together with the allocator of object identities and a log of
      the calls made to the objective.
    - A raised exception ends the computation and keeps the state reached.
      The solver can raise as well as the code: its run is a tree whose
      leaves are a normal end or an exception of its own.
    - [list.sort] is taken from the environment with what Python promises of
      it; the order it gives to keys that [<] does not order, a NaN among
      them, is left open.
    - [while True] may not end: the loop of [optimize_all] is given the
      number of sweeps it may start.
    - [print] calls have no effect on the values computed and are left out,
      and so is the [printing] flag that only guards some of them. *)

From Stdlib Require Import ZArith List String Ascii Bool Lia Floats.
From Stdlib Require Import Permutation Sorted.
Import ListNotations.
Local Open Scope Z_scope.

(** ** Python numbers *)

(** The exceptions the embedded code can raise. [IndexError] is what
    [results[0]] raises on an empty list and what [settings[i]] raises out of
    range; [ValueError] and [OverflowError] come from [int()] and [float()].
    The code defines and raises no other exception of its own than
    [DifferentListLengthException]. [OtherError name] is an exception of any
    other class, by the name of the class: the code raises none, the solver
    may. *)
Inductive exn : Type :=
  | DifferentListLengthException
  | IndexError
  | ValueError
  | OverflowError
  | OtherError (class_name : string).

Inductive pynum : Type :=
  | PInt (n : Z)
  | PFloat (x : float).

(** What crosses the boundary to the objective: a number or a string. *)
Inductive pyval : Type :=
  | Num (v : pynum)
  | Str (s : string).

(** [isinstance(setting, str)] and [isinstance(setting, int)]. *)
Definition is_str (v : pyval) : bool :=
  match v with Str _ => true | Num _ => false end.

Definition is_pyint (v : pyval) : bool :=
  match v with Num (PInt _) => true | _ => false end.

(** The signed integer [m * 2^e] cut toward zero, for [m > 0]. *)
Definition trunc_dyadic (s : bool) (m : positive) (e : Z) : Z :=
  let mag := if 0 <=? e then Zpos m * 2 ^ e else Zpos m / 2 ^ (- e) in
  if s then - mag else mag.

(** [int(x)] on a float: truncation toward zero; [ValueError] on NaN and
    [OverflowError] on an infinity. *)
Definition int_of_float (x : float) : exn + Z :=
  match Prim2SF x with
  | S754_nan => inl ValueError
  | S754_infinity _ => inl OverflowError
  | S754_zero _ => inr 0
  | S754_finite s m e => inr (trunc_dyadic s m e)
  end.

(** [float(n)] on an int: the nearest binary64 number, ties to even;
    [OverflowError] when that is out of range. *)
Definition float_of_int (n : Z) : exn + float :=
  let f := SF2Prim (binary_normalize prec emax n 0 false) in
  if is_infinity f then inl OverflowError else inr f.

(** [int(v)] and [float(v)] on a number. *)
Definition py_int (v : pynum) : exn + Z :=
  match v with
  | PInt n => inr n
  | PFloat x => int_of_float x
  end.

Definition py_float (v : pynum) : exn + float :=
  match v with
  | PInt n => float_of_int n
  | PFloat x => inr x
  end.

(** [x < n] and [n < x] between a float and an int: Python compares the exact
    values, without converting the int. *)
Definition float_lt_int (x : float) (n : Z) : bool :=
  match Prim2SF x with
  | S754_nan => false
  | S754_infinity s => s
  | S754_zero _ => 0 <? n
  | S754_finite s m e =>
      let sm := if s then Zneg m else Zpos m in
      if 0 <=? e then sm * 2 ^ e <? n else sm <? n * 2 ^ (- e)
  end.

Definition int_lt_float (n : Z) (x : float) : bool :=
  match Prim2SF x with
  | S754_nan => false
  | S754_infinity s => negb s
  | S754_zero _ => n <? 0
  | S754_finite s m e =>
      let sm := if s then Zneg m else Zpos m in
      if 0 <=? e then n <? sm * 2 ^ e else n * 2 ^ (- e) <? sm
  end.

(** [a < b]. *)
Definition py_lt (a b : pynum) : bool :=
  match a, b with
  | PInt m, PInt n => m <? n
  | PFloat x, PFloat y => PrimFloat.ltb x y
  | PFloat x, PInt n => float_lt_int x n
  | PInt n, PFloat x => int_lt_float n x
  end.

(** [a - b]: exact on two ints, otherwise in binary64 after converting the
    int operand. *)
Definition py_sub (a b : pynum) : exn + pynum :=
  match a, b with
  | PInt m, PInt n => inr (PInt (m - n))
  | _, _ =>
      match py_float a, py_float b with
      | inr x, inr y => inr (PFloat (x - y)%float)
      | inl e, _ => inl e
      | _, inl e => inl e
      end
  end.

(** [round(x)] of the design description: the nearest integer, ties to even.
    The source never calls it; it is here to compare [int()] against. *)
Definition round_dyadic (s : bool) (m : positive) (e : Z) : Z :=
  let mag :=
    if 0 <=? e then Zpos m * 2 ^ e
    else
      let d := 2 ^ (- e) in
      let q := Zpos m / d in
      let r := Zpos m mod d in
      match 2 * r ?= d with
      | Lt => q
      | Gt => q + 1
      | Eq => if Z.even q then q else q + 1
      end in
  if s then - mag else mag.

Definition round_float (x : float) : exn + Z :=
  match Prim2SF x with
  | S754_nan => inl ValueError
  | S754_infinity _ => inl OverflowError
  | S754_zero _ => inr 0
  | S754_finite s m e => inr (round_dyadic s m e)
  end.

Definition py_round (v : pynum) : exn + Z :=
  match v with
  | PInt n => inr n
  | PFloat x => round_float x
  end.

(** ** Objects and the shared state *)

(** [class Param(TypedDict)]: the entries [value], [ratio], [is_int], and the
    identity [ident] of the dict object holding them. *)
Record Param : Type := {
  ident : nat;
  value : pynum;
  ratio : bool;
  is_int : bool
}.

(** [class Result(TypedDict)]: the entries [value] and [settings]. *)
Record Result : Type := {
  result_value : pynum;
  settings : list Param
}.

(** [param is not current_param]. *)
Definition is_not (param current_param : Param) : bool :=
  negb (Nat.eqb (ident param) (ident current_param)).

(** The mutable store: the class-level list, the next free object identity,
    and the arguments of every call made to the objective so far. *)
Record state : Type := {
  results_of_single_param_optimization : list Result;
  next_ident : nat;
  evaluations : list (list pyval)
}.

Inductive outcome (A : Type) : Type :=
  | Returns (a : A) (st : state)
  | Raises (e : exn) (st : state).

Arguments Returns {A} a st.
Arguments Raises {A} e st.

Definition M (A : Type) : Type := state -> outcome A.

Definition ret {A} (a : A) : M A := fun st => Returns a st.

Definition raise {A} (e : exn) : M A := fun st => Raises e st.

Definition bind {A B} (c : M A) (k : A -> M B) : M B :=
  fun st =>
    match c st with
    | Returns a st' => k a st'
    | Raises e st' => Raises e st'
    end.

Definition lift {A} (r : exn + A) : M A :=
  match r with
  | inl e => raise e
  | inr a => ret a
  end.

Declare Scope py_scope.
Delimit Scope py_scope with py.
Notation "x <- c ;; k" := (bind c (fun x => k))
  (at level 61, c at next level, right associativity) : py_scope.
Notation "c ;;; k" := (bind c (fun _ => k))
  (at level 61, right associativity) : py_scope.
Local Open Scope py_scope.

(** The store after one object was built, after the history was emptied,
    after a result was appended to it, and after a call to the objective. *)
Definition allocated (st : state) : state :=
  {| results_of_single_param_optimization :=
       results_of_single_param_optimization st;
     next_ident := S (next_ident st);
     evaluations := evaluations st |}.

Definition cleared (st : state) : state :=
  {| results_of_single_param_optimization := [];
     next_ident := next_ident st;
     evaluations := evaluations st |}.

Definition appended (st : state) (r : Result) : state :=
  {| results_of_single_param_optimization :=
       results_of_single_param_optimization st ++ [r];
     next_ident := next_ident st;
     evaluations := evaluations st |}.

Definition logged (st : state) (args : list pyval) : state :=
  {| results_of_single_param_optimization :=
       results_of_single_param_optimization st;
     next_ident := next_ident st;
     evaluations := evaluations st ++ [args] |}.

(** [Param(value=v, ratio=r, is_int=i)]: a new dict object. *)
Definition new_Param (v : pynum) (r i : bool) : M Param :=
  fun st =>
    Returns {| ident := next_ident st; value := v; ratio := r; is_int := i |}
            (allocated st).

(** [cls.results_of_single_param_optimization.clear()]. *)
Definition clear : M unit :=
  fun st => Returns tt (cleared st).

(** [cls.results_of_single_param_optimization.append(r)]. *)
Definition append (r : Result) : M unit :=
  fun st => Returns tt (appended st r).

(** The objective, as its annotation and the description have it: a function
    from the encoded parameters to a float score and the echoed settings, with
    an answer for every input. Calling it is logged. *)
Definition objective : Type := list pyval -> float * list pyval.

Definition call (function : objective) (args : list pyval)
  : M (float * list pyval) :=
  fun st => Returns (function args) (logged st args).

(** ** The environment: Python built-ins and the scipy solver *)

(** An exception [scipy.optimize.minimize] raises itself, not through the
    callback: the [ValueError] it has for bounds it refuses or for values it
    cannot work with, or one of any other class of Python or of a library.
    [DifferentListLengthException] is not among them: the class belongs to
    this module, and scipy does not know it. *)
Inductive solver_exn : Type :=
  | SolverIndexError
  | SolverValueError
  | SolverOverflowError
  | SolverError (class_name : string).

Definition raised (e : solver_exn) : exn :=
  match e with
  | SolverIndexError => IndexError
  | SolverValueError => ValueError
  | SolverOverflowError => OverflowError
  | SolverError class_name => OtherError class_name
  end.

(** A run of [scipy.optimize.minimize] on a scalar function, as the solver's
    strategy: it stops, or asks for the function's value at a point and goes
    on from the answer, or fails with an exception of its own, at once or
    after some evaluations. The tree is finite: the solver makes finitely
    many evaluations. Its reported optimum is not part of the tree, since
    [optimize_one] drops it. *)
Inductive solver : Type :=
  | Stop
  | Ask (x : float) (k : float -> solver)
  | Fail (e : solver_exn).

(** The order [list.sort(key=lambda r: r["value"], reverse=True)] gives where
    [<] orders the keys: descending by value, equal values keeping their
    order. *)
Fixpoint insert_desc (r : Result) (sorted : list Result) : list Result :=
  match sorted with
  | [] => [r]
  | h :: t =>
      if py_lt (result_value r) (result_value h)
      then h :: insert_desc r t
      else r :: sorted
  end.

Definition sort_desc (l : list Result) : list Result :=
  fold_right insert_desc [] l.

(** A recorded score that is a number: a float other than NaN. *)
Definition ordered_score (r : Result) : Prop :=
  exists v, result_value r = PFloat v /\ is_nan v = false.

(** [a] may stand before [b] in the sorted list: [a]'s value is not below
    [b]'s. *)
Definition not_below (a b : Result) : Prop :=
  py_lt (result_value a) (result_value b) = false.

(** What the code takes from outside the repository.
    - [str_of_num v] is the text [f"{v}"] puts for a number.
    - [float_of_str s] is [float(s)]; [None] stands for its [ValueError].
    - [minimize x0 bounds] is [scipy.optimize.minimize] with
      [method=cls.method], the Powell solver, started at [x0] within
      [bounds].
    - [sort_by_value_reversed l] is the list
      [l.sort(key=lambda r: r["value"], reverse=True)] leaves. Python's sort
      compares the keys with [<] and nothing else. It rearranges the list;
      where [<] orders the keys, no NaN among them, it gives the stable
      descending order [sort_desc]; and a list that is one run for it, no
      value being below the next one, it leaves as it is. For other lists
      with a NaN among the keys the order depends on the interpreter's
      version, and nothing more is taken of it. *)
Class Runtime : Type := {
  str_of_num : pynum -> string;
  float_of_str : string -> option float;
  minimize : pynum -> pynum * pynum -> solver;
  sort_by_value_reversed : list Result -> list Result;
  sort_permutes :
    forall l, Permutation (sort_by_value_reversed l) l;
  sort_orders :
    forall l, Forall ordered_score l -> sort_by_value_reversed l = sort_desc l;
  sort_keeps_a_run :
    forall l, Sorted not_below l -> sort_by_value_reversed l = l
}.

(** [s[:-1]]. *)
Fixpoint drop_last (s : string) : string :=
  match s with
  | EmptyString => EmptyString
  | String c EmptyString => EmptyString
  | String c s' => String c (drop_last s')
  end.

(** [list.insert(i, x)]: an index past the end appends. *)
Definition py_insert {A} (i : nat) (x : A) (l : list A) : list A :=
  firstn i l ++ x :: skipn i l.

Definition MIN_DIFF_BETWEEN_ITERATIONS : Z := 30.

(** ** class [Optimization] *)

Section Optimization.

Context {RT : Runtime}.

(** One element of [_gather_params_to_pass]: the wire form of a value under
    its [ratio] and [is_int] mode. The loop over [fixed_params] and the
    candidate's branch are the same three cases. *)
Definition encode (v : pynum) (v_ratio v_is_int : bool) : exn + pyval :=
  if v_ratio then inr (Str (str_of_num v ++ "k")%string)
  else if v_is_int then
    match py_int v with
    | inl e => inl e
    | inr n => inr (Num (PInt n))
    end
  else
    match py_float v with
    | inl e => inl e
    | inr x => inr (Num (PFloat x))
    end.

(** The loop [for current_param in fixed_params: result_params.append(...)]. *)
Fixpoint encode_fixed (fixed_params : list Param) : exn + list pyval :=
  match fixed_params with
  | [] => inr []
  | current_param :: rest =>
      match encode (value current_param) (ratio current_param)
                   (is_int current_param) with
      | inl e => inl e
      | inr v =>
          match encode_fixed rest with
          | inl e => inl e
          | inr vs => inr (v :: vs)
          end
      end
  end.

Definition _gather_params_to_pass
    (param : float) (param_index : nat) (param_ratio is_param_int : bool)
    (fixed_params : list Param) : exn + list pyval :=
  match encode_fixed fixed_params with
  | inl e => inl e
  | inr result_params =>
      match encode (PFloat param) param_ratio is_param_int with
      | inl e => inl e
      | inr v => inr (py_insert param_index v result_params)
      end
  end.

(** One element of the comprehension that builds [settings_params]. *)
Definition decode (setting : pyval) : M Param :=
  match setting with
  | Str s =>
      match float_of_str (drop_last s) with
      | None => raise ValueError
      | Some x => new_Param (PFloat x) (is_str setting) (is_pyint setting)
      end
  | Num v => new_Param v (is_str setting) (is_pyint setting)
  end.

Fixpoint decode_all (settings : list pyval) : M (list Param) :=
  match settings with
  | [] => ret []
  | setting :: rest =>
      p <- decode setting ;;
      ps <- decode_all rest ;;
      ret (p :: ps)
  end.

(** The closure [func_to_optimize] that [_get_function_for_optimization]
    builds around [function] and [fixed_params]. *)
Definition func_to_optimize
    (function : objective) (fixed_params : list Param)
    (param : float) (param_index : nat) (param_ratio is_param_int : bool)
  : M float :=
  params_to_pass <-
    lift (_gather_params_to_pass param param_index param_ratio is_param_int
                                 fixed_params) ;;
  answer <- call function params_to_pass ;;
  settings_params <- decode_all (snd answer) ;;
  append {| result_value := PFloat (fst answer);
            settings := settings_params |} ;;;
  ret (- fst answer)%float.

Definition _get_function_for_optimization
    (function : objective) (fixed_params : list Param)
  : float -> nat -> bool -> bool -> M float :=
  func_to_optimize function fixed_params.

(** The solver at work: each point it asks for is passed to the callback,
    with the [args] of the call to [minimize]; an exception of the callback
    or of the solver ends the run. *)
Fixpoint run_solver (s : solver) (f : float -> M float) : M unit :=
  match s with
  | Stop => ret tt
  | Ask x k => y <- f x ;; run_solver (k y) f
  | Fail e => raise (raised e)
  end.

(** [cls.results_of_single_param_optimization.sort(key=..., reverse=True)]. *)
Definition sort_results : M unit :=
  fun st =>
    Returns tt {| results_of_single_param_optimization :=
                    sort_by_value_reversed
                      (results_of_single_param_optimization st);
                  next_ident := next_ident st;
                  evaluations := evaluations st |}.

Definition optimize_one
    (function : objective) (param : Param) (param_bounds : pynum * pynum)
    (param_index : nat) (fixed_params : list Param) : M Result :=
  clear ;;;
  let tuned_function := _get_function_for_optimization function fixed_params in
  run_solver (minimize (value param) param_bounds)
             (fun x => tuned_function x param_index (ratio param)
                                      (is_int param)) ;;;
  sort_results ;;;
  fun st =>
    match results_of_single_param_optimization st with
    | [] => Raises IndexError st
    | r :: _ => Returns r st
    end.

(** [seq[i]]. *)
Definition subscript {A} (l : list A) (i : nat) : M A :=
  match nth_error l i with
  | None => raise IndexError
  | Some a => ret a
  end.

(** The comprehension that builds [fixed_params] in [optimize_all]. *)
Definition fixed_params_of (best_result : Result) (current_param : Param)
  : list Param :=
  filter (fun param => is_not param current_param) (settings best_result).

(** The body of [for i in range(len(params))], over the indices left. *)
Fixpoint for_each_param
    (function : objective) (bounds : list (pynum * pynum))
    (indices : list nat) (best_result : Result) : M Result :=
  match indices with
  | [] => ret best_result
  | i :: rest =>
      current_param <- subscript (settings best_result) i ;;
      param_bounds <- subscript bounds i ;;
      best_result' <-
        optimize_one function current_param param_bounds i
                     (fixed_params_of best_result current_param) ;;
      for_each_param function bounds rest best_result'
  end.

(** One pass of the [while True] body up to the convergence test. *)
Definition sweep (function : objective) (params : list Param)
    (bounds : list (pynum * pynum)) (best_result : Result) : M Result :=
  for_each_param function bounds (seq 0 (List.length params)) best_result.

(** [while True: ...]. The loop may run for ever, so the embedding counts the
    sweeps it may still start and gives [None] when none is left. *)
Fixpoint while_true
    (fuel : nat) (function : objective) (params : list Param)
    (bounds : list (pynum * pynum))
    (best_result result_of_all_params_iteration : Result) (st : state)
  : option (outcome Result) :=
  match fuel with
  | O => None
  | S fuel' =>
      match sweep function params bounds best_result st with
      | Raises e st' => Some (Raises e st')
      | Returns best_result' st' =>
          match py_sub (result_value best_result')
                       (result_value result_of_all_params_iteration) with
          | inl e => Some (Raises e st')
          | inr diff =>
              if py_lt diff (PInt MIN_DIFF_BETWEEN_ITERATIONS)
              then Some (Returns result_of_all_params_iteration st')
              else while_true fuel' function params bounds
                              best_result' best_result' st'
          end
      end
  end.

(** [Result(value=0, settings=params)]. *)
Definition sentinel (params : list Param) : Result :=
  {| result_value := PInt 0; settings := params |}.

Definition optimize_all
    (fuel : nat) (function : objective) (params : list Param)
    (bounds : list (pynum * pynum)) (st : state) : option (outcome Result) :=
  if negb (Nat.eqb (List.length params) (List.length bounds))
  then Some (Raises DifferentListLengthException st)
  else
    match clear st with
    | Raises e st' => Some (Raises e st')
    | Returns _ st' =>
        while_true fuel function params bounds
                   (sentinel params) (sentinel params) st'
    end.

End Optimization.

(** ** An executable environment

    To run the embedding on concrete inputs the built-ins need an instance.
    [demo_str_of_num] prints an int in decimal and a float by its exact
    decimal expansion, with a fractional part: this is the text Python prints
    when that expansion is the shortest one that reads back as the same float
    ([10.0], [2.75], [0.5]); Python shortens the others. [demo_float_of_str]
    reads an optional sign, digits and an optional fraction, rounded to the
    nearest float; it knows no exponent notation. The sort is [sort_desc] on
    every list: it has the three properties asked of the environment's. *)

Definition digit_of (n : Z) : ascii :=
  ascii_of_nat (48 + Z.to_nat n).

Fixpoint decimal_digits (fuel : nat) (n : Z) (acc : string) : string :=
  match fuel with
  | O => acc
  | S fuel' =>
      let acc' := String (digit_of (n mod 10)) acc in
      if n / 10 =? 0 then acc' else decimal_digits fuel' (n / 10) acc'
  end.

Definition decimal_of_nonneg (n : Z) : string :=
  decimal_digits (S (Z.to_nat (Z.log2 n))) n EmptyString.

Definition decimal_of_int (n : Z) : string :=
  if n <? 0 then String "-"%char (decimal_of_nonneg (- n))
  else decimal_of_nonneg n.

(** [k] fractional digits of [frac / 10^k], trailing zeros dropped. *)
Fixpoint fraction_digits (k : nat) (frac : Z) (acc : string) : string :=
  match k with
  | O => acc
  | S k' =>
      let d := frac mod 10 in
      let acc' :=
        match acc with
        | EmptyString => if d =? 0 then EmptyString else String (digit_of d) acc
        | _ => String (digit_of d) acc
        end in
      fraction_digits k' (frac / 10) acc'
  end.

Definition decimal_of_float (x : float) : string :=
  match Prim2SF x with
  | S754_nan => "nan"%string
  | S754_infinity s => if s then "-inf"%string else "inf"%string
  | S754_zero s => if s then "-0.0"%string else "0.0"%string
  | S754_finite s m e =>
      let sign := if s then "-"%string else EmptyString in
      if 0 <=? e
      then (sign ++ decimal_of_nonneg (Zpos m * 2 ^ e) ++ ".0")%string
      else
        let k := Z.to_nat (- e) in
        let scaled := Zpos m * 5 ^ (- e) in
        let frac := fraction_digits k (scaled mod 10 ^ (- e)) EmptyString in
        (sign ++ decimal_of_nonneg (scaled / 10 ^ (- e)) ++ "."
              ++ match frac with EmptyString => "0" | _ => frac end)%string
  end.

Definition demo_str_of_num (v : pynum) : string :=
  match v with
  | PInt n => decimal_of_int n
  | PFloat x => decimal_of_float x
  end.

(** Reading digits: the number read so far and how many digits came after the
    point ([None] before it). *)
Fixpoint read_digits (s : string) (n : Z) (after_point : option nat)
  : option (Z * nat) :=
  match s with
  | EmptyString =>
      Some (n, match after_point with Some k => k | None => O end)
  | String c rest =>
      let code := Z.of_nat (nat_of_ascii c) in
      if (48 <=? code) && (code <=? 57) then
        read_digits rest (10 * n + (code - 48))
                    (match after_point with
                     | Some k => Some (S k)
                     | None => None
                     end)
      else if (code =? 46) && match after_point with None => true | _ => false end
      then read_digits rest n (Some O)
      else None
  end.

Definition ratio_to_float (s : bool) (n : Z) (k : nat) : float :=
  match n with
  | Zpos m =>
      SF2Prim (SFdiv prec emax (S754_finite s m 0)
                     (S754_finite false (Z.to_pos (10 ^ Z.of_nat k)) 0))
  | _ => if s then neg_zero else zero
  end.

Definition demo_float_of_str (s : string) : option float :=
  let '(neg, body) :=
    match s with
    | String "-"%char rest => (true, rest)
    | _ => (false, s)
    end in
  match body with
  | EmptyString => None
  | String "."%char EmptyString => None
  | _ =>
      match read_digits body 0 None with
      | Some (n, k) => Some (ratio_to_float neg n k)
      | None => None
      end
  end.

Program Definition demo_runtime (solve : pynum -> pynum * pynum -> solver)
  : Runtime :=
  {| str_of_num := demo_str_of_num;
     float_of_str := demo_float_of_str;
     minimize := solve;
     sort_by_value_reversed := sort_desc |}.
Next Obligation.
  induction l as [|r l IH]; simpl; [constructor|].
  transitivity (r :: sort_desc l); [|now constructor].
  generalize (sort_desc l) as sorted. clear.
  induction sorted as [|h t IH]; simpl; [reflexivity|].
  destruct (py_lt (result_value r) (result_value h)); [|reflexivity].
  rewrite IH. apply perm_swap.
Qed.
Next Obligation.
  match goal with
  | Hrun : Sorted not_below _ |- _ =>
      induction Hrun as [|a l Hl IH Hhd]; simpl; [reflexivity|]
  end.
  rewrite IH. destruct Hhd as [|b l Hab]; simpl; [reflexivity|].
  unfold not_below in Hab. now rewrite Hab.
Qed.

(** Solvers for the examples: one that evaluates nothing, and one that
    evaluates the given points in turn whatever the answers. *)
Definition solve_nothing : pynum -> pynum * pynum -> solver :=
  fun _ _ => Stop.

Fixpoint ask_each (points : list float) : solver :=
  match points with
  | [] => Stop
  | x :: rest => Ask x (fun _ => ask_each rest)
  end.

Definition solve_at (points : list float) : pynum -> pynum * pynum -> solver :=
  fun _ _ => ask_each points.

(** Solvers that fail: one that refuses its bounds before any evaluation,
    and one that evaluates the given points and then fails on what it
    got. *)
Definition solve_refusing : pynum -> pynum * pynum -> solver :=
  fun _ _ => Fail SolverValueError.



(** A state before any call: nothing recorded, nothing evaluated, and the
    identities below [n] taken by the caller's objects. *)
Definition fresh_state (n : nat) : state :=
  {| results_of_single_param_optimization := [];
     next_ident := n;
     evaluations := [] |}.

(** ** Notions of the statements *)

(** The encoding in the words of the design description, to compare [encode]
    with: [Ratio(value)] for a ratio, otherwise [Int(round(value))] if
    [is_int], else [Float(value)]. *)
Definition encode_described {RT : Runtime}
    (v : pynum) (v_ratio v_is_int : bool) : exn + pyval :=
  if v_ratio then inr (Str (str_of_num v ++ "k")%string)
  else if v_is_int then
    match py_round v with
    | inl e => inl e
    | inr n => inr (Num (PInt n))
    end
  else
    match py_float v with
    | inl e => inl e
    | inr x => inr (Num (PFloat x))
    end.

(** The sequence with the element at position [i] dropped. *)
Definition remove_at {A} (i : nat) (l : list A) : list A :=
  firstn i l ++ skipn (S i) l.

(** "Within floating-point tolerance", read as [math.isclose] does with its
    default relative tolerance of [1e-09]: equal, or both finite and no
    further apart than that fraction of the larger magnitude. *)
Definition rel_tol : float := 0x1.12e0be826d695p-30%float.

Definition float_max (x y : float) : float :=
  if PrimFloat.ltb x y then y else x.

Definition isclose (a b : float) : bool :=
  PrimFloat.eqb a b
  || (negb (is_infinity a || is_infinity b)
      && PrimFloat.leb (abs (a - b)) (rel_tol * float_max (abs a) (abs b))).

Definition within_tolerance (a b : pynum) : bool :=
  match py_float a, py_float b with
  | inr x, inr y => isclose x y
  | _, _ => false
  end.

(** [decode(encode(p))] in a given state. *)
Definition round_trip {RT : Runtime} (p : Param) : M Param :=
  v <- lift (encode (value p) (ratio p) (is_int p)) ;;
  decode v.

(** The round trip in the words of the design description, for one
    parameter: both flags come back exactly and the value within tolerance. *)
Definition round_trip_described {RT : Runtime} (p : Param) : Prop :=
  forall st p' st',
    round_trip p st = Returns p' st' ->
    ratio p' = ratio p /\ is_int p' = is_int p
    /\ within_tolerance (value p') (value p) = true.

(** The sweeps that went on: [sweeps_on n c c'] when, from the loop state [c]
    (the two loop variables and the store), [n] sweeps were completed whose
    convergence test failed, leaving the loop in [c']. *)
Inductive sweeps_on {RT : Runtime} (function : objective)
    (params : list Param) (bounds : list (pynum * pynum))
  : nat -> Result * Result * state -> Result * Result * state -> Prop :=
  | sweeps_none : forall c, sweeps_on function params bounds O c c
  | sweeps_more : forall n best_result previous st best_result' st' diff c,
      sweep function params bounds best_result st = Returns best_result' st' ->
      py_sub (result_value best_result') (result_value previous) = inr diff ->
      py_lt diff (PInt MIN_DIFF_BETWEEN_ITERATIONS) = false ->
      sweeps_on function params bounds n (best_result', best_result', st') c ->
      sweeps_on function params bounds (S n) (best_result, previous, st) c.

(** ** Inputs of the examples, and predicates of the proofs *)

(** A float-mode parameter holding [1.0]: the object [p] of the tuple
    [(p, p)] that holds one dict at both positions. *)
Definition shared_param : Param :=
  {| ident := 0; value := PFloat 1; ratio := false; is_int := false |}.

(** An int-mode parameter holding [2.75]. *)
Definition int_mode_param : Param :=
  {| ident := 0; value := PFloat 2.75; ratio := false; is_int := true |}.

(** The description's second example: [10] as a ratio, here with [is_int]
    set. *)
Definition ratio_param : Param :=
  {| ident := 0; value := PInt 10; ratio := true; is_int := true |}.

(** An objective that echoes nothing, whatever it is given. *)
Definition echo_nothing : objective := fun _ => (1%float, []).

(** Objectives for the examples: the score is fixed and the settings are
    echoed as received. *)
Definition echo_with (score : float) : objective := fun args => (score, args).

(** A run on one float-mode parameter with a solver that evaluates the point
    [1.0] once in every search: the result recorded by the search that built
    the object [id], and the store after [n] searches. *)
Definition demo_params : list Param := [shared_param].

Definition demo_bounds : list (pynum * pynum) := [(PInt 0, PInt 2)].

Definition demo_result (score : float) (id : nat) : Result :=
  {| result_value := PFloat score;
     settings := [ {| ident := id; value := PFloat 1; ratio := false;
                      is_int := false |} ] |}.

Definition demo_state (score : float) (n : nat) : state :=
  {| results_of_single_param_optimization := [demo_result score n];
     next_ident := S n;
     evaluations := repeat [Num (PFloat 1)] n |}.

(** A result as [func_to_optimize] builds them under [fixed_params]: the score
    and the decoded echo of one call to the objective, on arguments one longer
    than [fixed_params], its parameters being new objects. *)
Definition recorded_by (function : objective) (fixed_params : list Param)
    (r : Result) : Prop :=
  exists args,
    List.length args = S (List.length fixed_params)
    /\ result_value r = PFloat (fst (function args))
    /\ List.length (settings r) = List.length (snd (function args))
    /\ NoDup (map ident (settings r)).

(** An objective with its best score at [3.0], and a solver that evaluates
    [1.0], [3.0] and [4.0] in this order: the best point is neither the first
    nor the last one evaluated. *)
Definition peak_objective : objective :=
  fun args =>
    (match args with
     | [Num (PFloat x)] =>
         if (x <? 2.5)%float then 10%float
         else if (x <? 3.5)%float then 30%float else 20%float
     | _ => 0%float
     end, args).

(** The result recorded for the point [x] with the given score, its one
    setting being the object [id]; and the store once the solver is done, the
    history in the order of the evaluations. *)
Definition peak_result (score : float) (id : nat) (x : float) : Result :=
  {| result_value := PFloat score;
     settings := [ {| ident := id; value := PFloat x; ratio := false;
                      is_int := false |} ] |}.

Definition peak_recorded : state :=
  {| results_of_single_param_optimization :=
       [peak_result 10 1 1; peak_result 30 2 3; peak_result 20 3 4];
     next_ident := 4;
     evaluations := [ [Num (PFloat 1)]; [Num (PFloat 3)]; [Num (PFloat 4)] ] |}.

(** An objective one of whose scores is not a number: [20] below [1.5], NaN
    from there to [2.5], [30] from there to [3.5] and [10] beyond; and the
    store once the solver has evaluated [1.0], [2.0], [3.0] and [4.0], the
    history in the order of the evaluations. *)
Definition nan_among_objective : objective :=
  fun args =>
    (match args with
     | [Num (PFloat x)] =>
         if (x <? 1.5)%float then 20%float
         else if (x <? 2.5)%float then nan
         else if (x <? 3.5)%float then 30%float else 10%float
     | _ => 0%float
     end, args).

Definition nan_among_recorded : state :=
  {| results_of_single_param_optimization :=
       [peak_result 20 1 1; peak_result nan 2 2; peak_result 30 3 3;
        peak_result 10 4 4];
     next_ident := 5;
     evaluations := [ [Num (PFloat 1)]; [Num (PFloat 2)]; [Num (PFloat 3)];
                      [Num (PFloat 4)] ] |}.

(** A run on two parameters, a float-mode one and a ratio, with a solver that
    evaluates [1.5] once in every search. *)
Definition two_params : list Param :=
  [ {| ident := 0; value := PFloat 1; ratio := false; is_int := false |};
    {| ident := 1; value := PInt 2; ratio := true; is_int := false |} ].

Definition two_bounds : list (pynum * pynum) :=
  [(PInt 0, PInt 2); (PInt 0, PInt 5)].

(** The settings decoded from the echo of [(1.5, "1.5k")], built as the
    objects [id] and [id + 1]. *)
Definition two_settings (id : nat) : list Param :=
  [ {| ident := id; value := PFloat 1.5; ratio := false; is_int := false |};
    {| ident := S id; value := PFloat 1.5; ratio := true; is_int := false |} ].

(** A recorded result carries a float, the score of an evaluation. *)
Definition scored (r : Result) : Prop :=
  exists v, result_value r = PFloat v.

(** ** Further notions: modes, objects, and what a run leaves behind *)

(** A parameter whose flags agree with its value, as [func_to_optimize]
    builds them: a ratio holds a float and is not an int, and [is_int] tells
    whether the value is an int. *)
Definition well_moded (p : Param) : Prop :=
  (ratio p = true -> is_int p = false /\ exists x, value p = PFloat x)
  /\ (is_int p = true <-> exists n, value p = PInt n).

(** The store a computation ends in, whether it returns or raises. *)
Definition final_state {A} (o : outcome A) : state :=
  match o with
  | Returns _ st => st
  | Raises _ st => st
  end.

(** The settings of [r] are objects built since the store [st]. *)
Definition fresh_since (st : state) (r : Result) : Prop :=
  Forall (fun p => (next_ident st <= ident p)%nat) (settings r).

(** A result built by a search that started in [st]: its settings are
    distinct new objects whose flags agree with their values, and its value is
    a score. *)
Definition built_since (st : state) (r : Result) : Prop :=
  NoDup (map ident (settings r))
  /\ Forall well_moded (settings r)
  /\ fresh_since st r
  /\ scored r.

(** What the evaluations of one search add to the store [st], giving [st']:
    as many results as calls to the objective, each call on one value more
    than there are fixed parameters, each result built of objects newer than
    [st] and older than [st']. *)
Definition search_grows (fixed : list Param) (st st' : state) : Prop :=
  (next_ident st <= next_ident st')%nat
  /\ exists rs es,
       results_of_single_param_optimization st'
       = results_of_single_param_optimization st ++ rs
       /\ evaluations st' = evaluations st ++ es
       /\ List.length rs = List.length es
       /\ Forall (fun e => List.length e = S (List.length fixed)) es
       /\ Forall (fun r => built_since st r
                           /\ Forall (fun p => (ident p < next_ident st')%nat)
                                     (settings r)) rs.

(** The settings decoded from the echo of [(1.0, "1.5k")], built as the
    objects [id] and [id + 1]. *)
Definition searched_settings (id : nat) : list Param :=
  [ {| ident := id; value := PFloat 1; ratio := false; is_int := false |};
    {| ident := S id; value := PFloat 1.5; ratio := true; is_int := false |} ].

(** An objective that scores [30] from [2.5] on, so that the points [3.0]
    and [4.0] tie, and the store once the solver has evaluated [1.0], [3.0]
    and [4.0]. *)
Definition tie_objective : objective :=
  fun args =>
    (match args with
     | [Num (PFloat x)] => if (x <? 2.5)%float then 10%float else 30%float
     | _ => 0%float
     end, args).

Definition tie_recorded : state :=
  {| results_of_single_param_optimization :=
       [peak_result 10 1 1; peak_result 30 2 3; peak_result 30 3 4];
     next_ident := 4;
     evaluations := [ [Num (PFloat 1)]; [Num (PFloat 3)]; [Num (PFloat 4)] ] |}.

(** The store [st] with another history in it. *)
Definition with_history (st : state) (history : list Result) : state :=
  {| results_of_single_param_optimization := history;
     next_ident := next_ident st;
     evaluations := evaluations st |}.

(** An outcome other than raising [DifferentListLengthException]. *)
Definition no_length_exception {A} (o : outcome A) : Prop :=
  match o with
  | Raises DifferentListLengthException _ => False
  | _ => True
  end.

(** ** The contract of the collaborators *)



(** An echoed value [func_to_optimize] can decode: a number, or a string that
    reads as a float once its last character is dropped. *)
Definition readable {RT : Runtime} (v : pyval) : Prop :=
  match v with
  | Num _ => True
  | Str s => float_of_str (drop_last s) <> None
  end.



(** A value of the loop variables: the sentinel's int [0] or a float. *)
Definition plain_value (v : pynum) : Prop :=
  v = PInt 0 \/ exists x, v = PFloat x.


(** An objective whose score is never a number. *)
Definition nan_objective : objective := fun args => (nan, args).

(** From [st] to [st'] the objective was called on tuples of [n] values
    only. *)
Definition evaluated_with (n : nat) (st st' : state) : Prop :=
  exists es,
    evaluations st' = evaluations st ++ es
    /\ Forall (fun e => List.length e = n) es.

(** ** The objective of [step_optimization.py] *)

(** [a + b], as [result += value] computes it: exact on two ints, otherwise
    in binary64 after converting the int operand. *)
Definition py_add (a b : pynum) : exn + pynum :=
  match a, b with
  | PInt m, PInt n => inr (PInt (m + n))
  | _, _ =>
      match py_float a, py_float b with
      | inr x, inr y => inr (PFloat (x + y)%float)
      | inl e, _ => inl e
      | _, inl e => inl e
      end
  end.

Module step_optimization.

Section Objective.

Context {RT : Runtime}.

(** [strategy_optimizers.test_function], a function of the extension module,
    which is not among these sources: taken as any function from a number to
    a float score. *)
Variable test_function : pynum -> float.

(** The number scored for one element of [got_params]: a string loses its
    last character and is read as a float. *)
Definition scored_param (param : pyval) : exn + pynum :=
  match param with
  | Str s =>
      match float_of_str (drop_last s) with
      | None => inl ValueError
      | Some x => inr (PFloat x)
      end
  | Num v => inr v
  end.

(** The loop [for param in got_params: ... result += value]. *)
Fixpoint accumulate (got_params : list pyval) (result : pynum)
  : exn + pynum :=
  match got_params with
  | [] => inr result
  | param :: rest =>
      match scored_param param with
      | inl e => inl e
      | inr param' =>
          match py_add result (PFloat (test_function param')) with
          | inl e => inl e
          | inr result' => accumulate rest result'
          end
      end
  end.

Definition function (got_params : list pyval)
  : exn + (pynum * list pyval) :=
  match accumulate got_params (PInt 0) with
  | inl e => inl e
  | inr result => inr (result, got_params)
  end.

End Objective.

End step_optimization.



(** * Properties *)

(** ** The monad *)

Lemma bind_returns {A B} (c : M A) (k : A -> M B) st a st' :
  c st = Returns a st' -> bind c k st = k a st'.
Proof. unfold bind. now intros ->. Qed.

Lemma bind_raises {A B} (c : M A) (k : A -> M B) st e st' :
  c st = Raises e st' -> bind c k st = Raises e st'.
Proof. unfold bind. now intros ->. Qed.

Lemma bind_inv {A B} (c : M A) (k : A -> M B) st b st2 :
  bind c k st = Returns b st2 ->
  exists a st1, c st = Returns a st1 /\ k a st1 = Returns b st2.
Proof.
  unfold bind. destruct (c st) as [a st1|e st1]; [|discriminate].
  intros H. now exists a, st1.
Qed.

Lemma nth_error_subscript {A} (l : list A) i a st st' :
  subscript l i st = Returns a st' -> nth_error l i = Some a /\ st' = st.
Proof.
  unfold subscript. destruct (nth_error l i); [|discriminate].
  intros H. injection H as <- <-. now split.
Qed.

(** ** Lists and strings *)

Lemma drop_last_app_char (s : string) (c : ascii) :
  drop_last (s ++ String c EmptyString) = s.
Proof.
  induction s as [|a s IH]; simpl; [reflexivity|].
  rewrite IH. destruct s; reflexivity.
Qed.

Lemma py_insert_length {A} i (x : A) l :
  List.length (py_insert i x l) = S (List.length l).
Proof.
  unfold py_insert.
  rewrite <- (firstn_skipn i l) at 3.
  rewrite !length_app. simpl. lia.
Qed.

Lemma remove_at_length {A} i (l : list A) :
  (i < List.length l)%nat -> S (List.length (remove_at i l)) = List.length l.
Proof.
  unfold remove_at. intros Hi.
  rewrite length_app, length_firstn, length_skipn. lia.
Qed.

(** Filtering out an object that is not in the list changes nothing. *)
Lemma filter_is_not_fresh current l :
  ~ In (ident current) (map ident l) ->
  filter (fun param => is_not param current) l = l.
Proof.
  induction l as [|p l IH]; simpl; intros Hnotin; [reflexivity|].
  unfold is_not at 1.
  destruct (Nat.eqb_spec (ident p) (ident current)) as [Heq|Hneq]; simpl.
  - exfalso. apply Hnotin. now left.
  - f_equal. apply IH. intros Hin. apply Hnotin. now right.
Qed.

(** Filtering out an object of the list drops at least one element. *)
Lemma filter_is_not_shorter current l :
  In current l ->
  (List.length (filter (fun param => is_not param current) l)
   < List.length l)%nat.
Proof.
  induction l as [|p l IH]; simpl; intros Hin; [destruct Hin|].
  unfold is_not at 1.
  destruct (Nat.eqb_spec (ident p) (ident current)) as [Heq|Hneq]; simpl.
  - pose proof (filter_length_le (fun param => is_not param current) l). lia.
  - destruct Hin as [->|Hin]; [congruence|]. apply IH in Hin. lia.
Qed.

(** When the objects of [settings] are pairwise distinct, equal values or not,
    the comprehension of [optimize_all] drops exactly the position [i]. *)
Lemma fixed_params_by_position best_result i current :
  NoDup (map ident (settings best_result)) ->
  nth_error (settings best_result) i = Some current ->
  fixed_params_of best_result current = remove_at i (settings best_result).
Proof.
  unfold fixed_params_of, remove_at.
  generalize (settings best_result) as l.
  intros l. revert i.
  induction l as [|p l IH]; intros [|i] Hnd Hnth; simpl in *; try discriminate.
  - injection Hnth as ->. inversion Hnd as [|? ? Hnotin Hnd']; subst.
    unfold is_not at 1. rewrite Nat.eqb_refl. simpl.
    now apply filter_is_not_fresh.
  - inversion Hnd as [|? ? Hnotin Hnd']; subst.
    unfold is_not at 1.
    destruct (Nat.eqb_spec (ident p) (ident current)) as [Heq|Hneq]; simpl.
    + exfalso. apply Hnotin. rewrite Heq.
      apply in_map. eapply nth_error_In; eassumption.
    + f_equal. now apply IH.
Qed.

(** ** Numbers *)

Lemma trunc_dyadic_bounds s m e :
  let n := trunc_dyadic s m e in
  Z.abs n * 2 ^ Z.max 0 (- e) <= Zpos m * 2 ^ Z.max 0 e
                              < (Z.abs n + 1) * 2 ^ Z.max 0 (- e)
  /\ (if s then n <= 0 else 0 <= n).
Proof.
  unfold trunc_dyadic.
  destruct (Z.leb_spec 0 e) as [He|He].
  - assert (Hp : 0 < 2 ^ e) by (apply Z.pow_pos_nonneg; lia).
    replace (Z.max 0 (- e)) with 0 by lia.
    replace (Z.max 0 e) with e by lia.
    assert (Hm : 0 < Zpos m * 2 ^ e) by nia.
    destruct s; simpl Z.pow; split; try lia.
  - assert (Hd : 0 < 2 ^ (- e)) by (apply Z.pow_pos_nonneg; lia).
    replace (Z.max 0 (- e)) with (- e) by lia.
    replace (Z.max 0 e) with 0 by lia.
    pose proof (Z.div_mod (Zpos m) (2 ^ (- e)) ltac:(lia)) as Hdm.
    pose proof (Z.mod_pos_bound (Zpos m) (2 ^ (- e)) Hd) as Hr.
    assert (Hq : 0 <= Zpos m / 2 ^ (- e)) by (apply Z.div_pos; lia).
    destruct s; simpl Z.pow; split; try lia;
      rewrite ?Z.abs_opp, ?Z.abs_eq by lia; nia.
Qed.

Ltac split_compares :=
  repeat match goal with
         | |- context [Z.compare ?x ?y] => destruct (Z.compare_spec x y); subst
         | |- context [Pos.compare_cont Eq ?x ?y] =>
             change (Pos.compare_cont Eq x y) with (Pos.compare x y);
             destruct (Pos.compare_spec x y); subst
         end.

Lemma SFltb_cotrans a b c :
  b <> S754_nan ->
  SFltb a c = true -> SFltb a b = true \/ SFltb b c = true.
Proof.
  unfold SFltb, SFcompare. intros Hb.
  destruct a as [[]|[]| |[] ma ea], b as [[]|[]| |[] mb eb],
           c as [[]|[]| |[] mc ec];
    simpl; try discriminate; try congruence; auto;
    split_compares; simpl; try discriminate; auto; try lia.
Qed.

Lemma SFleb_of_not_ltb a b :
  a <> S754_nan -> b <> S754_nan -> SFltb a b = false -> SFleb b a = true.
Proof.
  unfold SFltb, SFleb, SFcompare. intros Ha Hb.
  destruct a as [[]|[]| |[] ma ea], b as [[]|[]| |[] mb eb];
    simpl; try discriminate; try congruence; auto;
    split_compares; simpl; try discriminate; auto; try lia.
Qed.

Lemma Prim2SF_not_nan x : is_nan x = false -> Prim2SF x <> S754_nan.
Proof.
  unfold is_nan. rewrite eqb_spec. intros H Hn. rewrite Hn in H. discriminate H.
Qed.

Lemma ltb_cotrans (x y z : float) :
  is_nan y = false ->
  (x <? z)%float = true -> (x <? y)%float = true \/ (y <? z)%float = true.
Proof.
  rewrite !ltb_spec. intros Hy. apply SFltb_cotrans. now apply Prim2SF_not_nan.
Qed.

Lemma leb_of_not_ltb (x y : float) :
  is_nan x = false -> is_nan y = false ->
  (x <? y)%float = false -> (y <=? x)%float = true.
Proof.
  rewrite ltb_spec, leb_spec. intros Hx Hy.
  apply SFleb_of_not_ltb; now apply Prim2SF_not_nan.
Qed.

Lemma ltb_irrefl (x : float) : (x <? x)%float = false.
Proof.
  rewrite ltb_spec. unfold SFltb, SFcompare.
  destruct (Prim2SF x) as [[]|[]| |[] m e]; simpl; try reflexivity;
    now rewrite Z.compare_refl, Pos.compare_cont_refl.
Qed.

Lemma ltb_asym (x y : float) : (x <? y)%float = true -> (y <? x)%float = false.
Proof.
  rewrite !ltb_spec. unfold SFltb, SFcompare.
  destruct (Prim2SF x) as [[]|[]| |[] mx ex],
           (Prim2SF y) as [[]|[]| |[] my ey];
    simpl; try discriminate; try reflexivity;
    split_compares; simpl; try discriminate; try reflexivity; lia.
Qed.

(** Subtracting the int [0] does not move a score across an int bound. *)
Lemma float_lt_int_sub_zero (x : float) (n : Z) :
  float_lt_int (x - 0)%float n = float_lt_int x n.
Proof.
  unfold float_lt_int. rewrite sub_spec.
  change (Prim2SF 0%float) with (S754_zero false).
  unfold SF64sub, SFsub.
  destruct (Prim2SF x) as [[]|[]| |s m e]; reflexivity.
Qed.

Lemma below_threshold_from_zero (a : pynum) :
  py_lt a (PInt MIN_DIFF_BETWEEN_ITERATIONS) = true ->
  exists diff,
    py_sub a (PInt 0) = inr diff
    /\ py_lt diff (PInt MIN_DIFF_BETWEEN_ITERATIONS) = true.
Proof.
  destruct a as [m|x]; simpl; intros H.
  - exists (PInt (m - 0)). split; [reflexivity|]. simpl.
    now replace (m - 0) with m by lia.
  - exists (PFloat (x - 0)%float). split; [reflexivity|]. simpl.
    now rewrite float_lt_int_sub_zero.
Qed.

(** ** The sort *)

Lemma insert_desc_In r x l : In x (insert_desc r l) <-> x = r \/ In x l.
Proof.
  induction l as [|h t IH]; simpl.
  - intuition.
  - destruct (py_lt (result_value r) (result_value h)); simpl.
    + rewrite IH. intuition.
    + intuition.
Qed.

Lemma sort_desc_In x l : In x (sort_desc l) <-> In x l.
Proof.
  induction l as [|r l IH]; simpl; [reflexivity|].
  rewrite insert_desc_In, IH. intuition.
Qed.

Lemma insert_desc_permutation r l : Permutation (insert_desc r l) (r :: l).
Proof.
  induction l as [|h t IH]; simpl; [reflexivity|].
  destruct (py_lt (result_value r) (result_value h)); [|reflexivity].
  rewrite IH. apply perm_swap.
Qed.

(** The sort keeps every recorded result, and only those. *)
Lemma sort_desc_permutation l : Permutation (sort_desc l) l.
Proof.
  induction l as [|r l IH]; simpl; [reflexivity|].
  rewrite insert_desc_permutation. now constructor.
Qed.

Lemma insert_desc_sorted r l :
  Forall scored l -> scored r ->
  Sorted not_below l -> Sorted not_below (insert_desc r l).
Proof.
  intros Hl (vr & Hvr).
  induction 1 as [|h t Ht IH Hhd]; simpl.
  - repeat constructor.
  - inversion Hl as [|? ? (vh & Hvh) Hl']; subst.
    destruct (py_lt (result_value r) (result_value h)) eqn:Hrh.
    + constructor; [now apply IH|].
      destruct t as [|h2 t2]; simpl.
      * constructor. unfold not_below. rewrite Hvr, Hvh in *. now apply ltb_asym.
      * destruct (py_lt (result_value r) (result_value h2)).
        -- inversion Hhd; subst. now constructor.
        -- constructor. unfold not_below. rewrite Hvr, Hvh in *.
           now apply ltb_asym.
    + constructor; [now constructor|]. now constructor.
Qed.

(** The sorted list is descending. *)
Lemma sort_desc_sorted l : Forall scored l -> Sorted not_below (sort_desc l).
Proof.
  induction 1 as [|r l Hr Hl IH]; simpl; [constructor|].
  apply insert_desc_sorted; try assumption.
  apply Forall_forall. intros x Hx.
  exact (proj1 (Forall_forall _ _) Hl x (proj1 (sort_desc_In x l) Hx)).
Qed.

Lemma sort_desc_nil l : sort_desc l = [] -> l = [].
Proof.
  destruct l as [|r l]; [reflexivity|]. simpl.
  destruct (sort_desc l) as [|h t]; simpl; [discriminate|].
  destruct (py_lt _ _); discriminate.
Qed.

(** The first element of the sorted list is below no element of the list. *)
Lemma sort_desc_head l :
  Forall ordered_score l ->
  forall h t,
    sort_desc l = h :: t ->
    forall r, In r l -> py_lt (result_value h) (result_value r) = false.
Proof.
  induction 1 as [|a l Ha Hl IH]; intros h t Hsort r Hin; [destruct Hin|].
  destruct Ha as (va & Hva & Hna).
  simpl in Hsort.
  destruct (sort_desc l) as [|h' t'] eqn:Hs.
  - apply sort_desc_nil in Hs. subst l. simpl in Hsort.
    injection Hsort as <- <-. destruct Hin as [<-|[]].
    rewrite Hva. apply ltb_irrefl.
  - specialize (IH h' t' eq_refl). simpl in Hsort.
    assert (Hh' : In h' l) by (apply sort_desc_In; rewrite Hs; now left).
    pose proof (proj1 (Forall_forall _ _) Hl h' Hh') as (vh & Hvh & Hnh).
    destruct (py_lt (result_value a) (result_value h')) eqn:Hah;
      injection Hsort as <- <-.
    + destruct Hin as [<-|Hin]; [|now apply IH].
      rewrite Hva, Hvh in *. now apply ltb_asym.
    + destruct Hin as [<-|Hin].
      * rewrite Hva. apply ltb_irrefl.
      * pose proof (IH r Hin) as Hhr.
        pose proof (proj1 (Forall_forall _ _) Hl r Hin) as (vr & Hvr & Hnr).
        rewrite Hva, Hvh, Hvr in *. simpl in *.
        destruct (va <? vr)%float eqn:Har; [|reflexivity].
        destruct (ltb_cotrans va vh vr Hnh Har) as [H1|H1]; congruence.
Qed.

(** What every sort of the environment does: it keeps the recorded results,
    and only those. *)
Lemma sorted_In (RT : Runtime) x l : In x (sort_by_value_reversed l) <-> In x l.
Proof.
  split; apply Permutation_in;
    [apply sort_permutes | apply Permutation_sym, sort_permutes].
Qed.


Lemma sorted_of_nil (RT : Runtime) : sort_by_value_reversed [] = [].
Proof. apply Permutation_nil, Permutation_sym, sort_permutes. Qed.

(** ** What a search records *)

Lemma encode_fixed_length (RT : Runtime) fixed :
  forall vs, encode_fixed fixed = inr vs -> List.length vs = List.length fixed.
Proof.
  induction fixed as [|p fixed IH]; simpl; intros vs H.
  - injection H as <-. reflexivity.
  - destruct (encode _ _ _) as [e|v]; [discriminate|].
    destruct (encode_fixed fixed) as [e|vs']; [discriminate|].
    injection H as <-. simpl. f_equal. now apply IH.
Qed.

Lemma gather_length (RT : Runtime) x i r b fixed args :
  _gather_params_to_pass x i r b fixed = inr args ->
  List.length args = S (List.length fixed).
Proof.
  unfold _gather_params_to_pass.
  destruct (encode_fixed fixed) as [e|vs] eqn:Hvs; [discriminate|].
  destruct (encode _ _ _) as [e|v]; [discriminate|].
  intros H. injection H as <-.
  rewrite py_insert_length. f_equal. eapply encode_fixed_length; eassumption.
Qed.

Lemma decode_all_length (RT : Runtime) echoed :
  forall st ps st',
    decode_all echoed st = Returns ps st' ->
    List.length ps = List.length echoed.
Proof.
  induction echoed as [|v echoed IH]; simpl; intros st ps st' H.
  - injection H as <- _. reflexivity.
  - apply bind_inv in H as (p & st1 & _ & H).
    apply bind_inv in H as (ps' & st2 & Hrest & H).
    injection H as <- _. simpl. f_equal. eapply IH; eassumption.
Qed.

Lemma decode_allocates (RT : Runtime) v st p st' :
  decode v st = Returns p st' ->
  ident p = next_ident st /\ st' = allocated st.
Proof.
  unfold decode.
  destruct v as [n|s]; [|destruct (float_of_str _); [|discriminate]];
    unfold new_Param; intros H; injection H as <- <-; now split.
Qed.

Lemma decode_all_allocates (RT : Runtime) echoed :
  forall st ps st',
    decode_all echoed st = Returns ps st' ->
    map ident ps = seq (next_ident st) (List.length ps)
    /\ results_of_single_param_optimization st'
       = results_of_single_param_optimization st
    /\ evaluations st' = evaluations st.
Proof.
  induction echoed as [|v echoed IH]; simpl; intros st ps st' H.
  - injection H as <- <-. now repeat split.
  - apply bind_inv in H as (p & st1 & Hp & H).
    apply bind_inv in H as (ps' & st2 & Hps & H).
    injection H as <- <-.
    apply decode_allocates in Hp as [Hid ->].
    apply IH in Hps as (Hids & Hres & Hev).
    simpl in *. rewrite Hid, Hids. now repeat split.
Qed.

Lemma func_to_optimize_appends (RT : Runtime) function fixed x i r b st y st' :
  func_to_optimize function fixed x i r b st = Returns y st' ->
  exists res,
    results_of_single_param_optimization st'
    = results_of_single_param_optimization st ++ [res]
    /\ recorded_by function fixed res.
Proof.
  unfold func_to_optimize. intros H.
  apply bind_inv in H as (args & st0 & Hargs & H).
  destruct (_gather_params_to_pass x i r b fixed) as [e|args'] eqn:Hg;
    [discriminate|].
  simpl in Hargs. injection Hargs as -> <-.
  apply bind_inv in H as (answer & st1 & Hcall & H).
  unfold call in Hcall. injection Hcall as <- <-.
  apply bind_inv in H as (ps & st2 & Hdec & H).
  apply bind_inv in H as ([] & st3 & Happ & H).
  injection H as _ <-. unfold append in Happ. injection Happ as <-. simpl.
  pose proof (decode_all_length _ _ _ _ _ Hdec) as Hlen.
  apply decode_all_allocates in Hdec as (Hids & Hres & _).
  rewrite Hres. simpl.
  eexists. split; [reflexivity|].
  exists args. simpl. repeat split.
  - eapply gather_length; eassumption.
  - assumption.
  - rewrite Hids. apply seq_NoDup.
Qed.

Lemma run_solver_appends (RT : Runtime) (P : Result -> Prop)
      (f : float -> M float) :
  (forall x st y st',
      f x st = Returns y st' ->
      exists res,
        results_of_single_param_optimization st'
        = results_of_single_param_optimization st ++ [res] /\ P res) ->
  forall s st u st',
    run_solver s f st = Returns u st' ->
    exists rs,
      results_of_single_param_optimization st'
      = results_of_single_param_optimization st ++ rs /\ Forall P rs.
Proof.
  intros Hf s.
  induction s as [|x k IH|e]; simpl; intros st u st' H.
  - injection H as _ <-. exists []. now rewrite app_nil_r.
  - apply bind_inv in H as (y & st1 & Hy & H).
    apply Hf in Hy as (res & Hres & HP).
    apply IH in H as (rs & Hrs & HPs).
    exists (res :: rs). split.
    + rewrite Hrs, Hres, <- app_assoc. reflexivity.
    + now constructor.
  - discriminate H.
Qed.

Lemma optimize_one_unfold (RT : Runtime) function param param_bounds i fixed st :
  optimize_one function param param_bounds i fixed st
  = match run_solver (minimize (value param) param_bounds)
                     (fun x => func_to_optimize function fixed x i
                                                (ratio param) (is_int param))
                     (cleared st) with
    | Raises e st1 => Raises e st1
    | Returns _ st1 =>
        match sort_by_value_reversed
                (results_of_single_param_optimization st1) with
        | [] =>
            Raises IndexError
                   {| results_of_single_param_optimization := [];
                      next_ident := next_ident st1;
                      evaluations := evaluations st1 |}
        | r :: rest =>
            Returns r
                    {| results_of_single_param_optimization := r :: rest;
                       next_ident := next_ident st1;
                       evaluations := evaluations st1 |}
        end
    end.
Proof.
  unfold optimize_one, bind, clear, sort_results, cleared. simpl.
  destruct (run_solver _ _ _) as [[] st1|e st1]; [|reflexivity].
  simpl. destruct (sort_by_value_reversed _); reflexivity.
Qed.

Lemma optimize_one_recorded (RT : Runtime) function param param_bounds i fixed
      st r st' :
  optimize_one function param param_bounds i fixed st = Returns r st' ->
  recorded_by function fixed r
  /\ Forall (recorded_by function fixed)
            (results_of_single_param_optimization st').
Proof.
  rewrite optimize_one_unfold.
  destruct (run_solver _ _ _) as [u st1|e st1] eqn:Hrun; [|discriminate].
  pose proof (run_solver_appends RT (recorded_by function fixed) _
                (fun x s y s' => func_to_optimize_appends RT function fixed x i
                                   (ratio param) (is_int param) s y s')
                _ _ _ _ Hrun) as (rs & Hrs & Hrec).
  simpl in Hrs. rewrite Hrs.
  destruct (sort_by_value_reversed rs) as [|h t] eqn:Hsort; [discriminate|].
  intros H. injection H as <- <-. simpl.
  assert (Hall : Forall (recorded_by function fixed) (h :: t)).
  { apply Forall_forall. intros x Hx.
    apply (proj1 (Forall_forall _ _) Hrec x).
    apply (sorted_In RT). rewrite Hsort. exact Hx. }
  split; [now inversion Hall|assumption].
Qed.

Lemma optimize_one_shape (RT : Runtime) function param param_bounds i fixed
      st r st' :
  (forall args, List.length (snd (function args)) = List.length args) ->
  optimize_one function param param_bounds i fixed st = Returns r st' ->
  List.length (settings r) = S (List.length fixed)
  /\ NoDup (map ident (settings r)).
Proof.
  intros Hecho H.
  apply optimize_one_recorded in H as [(args & Hargs & _ & Hlen & Hnd) _].
  split; [|assumption]. now rewrite Hlen, Hecho.
Qed.

(** ** Sweeps *)

(** Once the settings are distinct objects, every dimension searched keeps
    their number, and the dimensions searched all lie within it. *)
Lemma for_each_param_shape (RT : Runtime) function bounds :
  (forall args, List.length (snd (function args)) = List.length args) ->
  forall m k best st best' st',
    NoDup (map ident (settings best)) ->
    for_each_param function bounds (seq k m) best st = Returns best' st' ->
    List.length (settings best') = List.length (settings best)
    /\ (m <> O -> (k + m <= List.length (settings best))%nat).
Proof.
  intros Hecho.
  induction m as [|m IH]; simpl; intros k best st best' st' Hnd H.
  - injection H as <- _. split; [reflexivity|congruence].
  - apply bind_inv in H as (current & st0 & Hcur & H).
    apply nth_error_subscript in Hcur as [Hcur ->].
    apply bind_inv in H as (pb & st0 & _ & H).
    apply bind_inv in H as (best1 & st1 & Hone & H).
    rewrite (fixed_params_by_position best k current Hnd Hcur) in Hone.
    apply optimize_one_shape in Hone as [Hlen1 Hnd1]; [|assumption].
    assert (Hk : (k < List.length (settings best))%nat)
      by (apply nth_error_Some; congruence).
    rewrite remove_at_length in Hlen1 by assumption.
    apply IH in H as [Hlen Hin]; [|assumption].
    split; [congruence|].
    intros _. destruct m as [|m]; [lia|].
    rewrite Hlen1 in Hin. specialize (Hin ltac:(discriminate)). lia.
Qed.

(** A completed sweep leaves as many settings as there are parameters. *)
Lemma sweep_shape (RT : Runtime) function params bounds best st best' st' :
  (forall args, List.length (snd (function args)) = List.length args) ->
  List.length (settings best) = List.length params ->
  sweep function params bounds best st = Returns best' st' ->
  List.length (settings best') = List.length params.
Proof.
  intros Hecho Hlen. unfold sweep.
  destruct (List.length params) as [|m] eqn:Hn; simpl; intros H.
  - injection H as <- _. assumption.
  - apply bind_inv in H as (current & st0 & Hcur & H).
    apply nth_error_subscript in Hcur as [Hcur ->].
    apply bind_inv in H as (pb & st0 & _ & H).
    apply bind_inv in H as (best1 & st1 & Hone & H).
    apply optimize_one_shape in Hone as [Hlen1 Hnd1]; [|assumption].
    pose proof (filter_is_not_shorter current (settings best)
                  (nth_error_In _ _ Hcur)) as Hshort.
    unfold fixed_params_of in Hlen1.
    apply for_each_param_shape in H as [Hlen' Hin]; [|assumption..].
    rewrite Hlen'. destruct m as [|m]; [lia|].
    specialize (Hin ltac:(discriminate)). lia.
Qed.

Lemma while_true_shape (RT : Runtime) function params bounds :
  (forall args, List.length (snd (function args)) = List.length args) ->
  forall fuel best previous st r st',
    List.length (settings best) = List.length params ->
    List.length (settings previous) = List.length params ->
    while_true fuel function params bounds best previous st
    = Some (Returns r st') ->
    List.length (settings r) = List.length params.
Proof.
  intros Hecho.
  induction fuel as [|fuel IH]; simpl; intros best previous st r st' Hb Hp H;
    [discriminate|].
  destruct (sweep function params bounds best st) as [best1 st1|e st1] eqn:Hsw;
    [|discriminate].
  apply sweep_shape in Hsw; [|assumption..].
  destruct (py_sub _ _) as [e|diff]; [discriminate|].
  destruct (py_lt diff _).
  - injection H as <- _. assumption.
  - eapply IH; [| |eassumption]; assumption.
Qed.

Lemma for_each_param_scored (RT : Runtime) function bounds indices :
  forall best st best' st',
    Forall scored (results_of_single_param_optimization st) ->
    for_each_param function bounds indices best st = Returns best' st' ->
    Forall scored (results_of_single_param_optimization st').
Proof.
  induction indices as [|i indices IH]; simpl; intros best st best' st' Hst H.
  - injection H as _ <-. assumption.
  - apply bind_inv in H as (current & st0 & _ & H).
    apply bind_inv in H as (pb & st1 & _ & H).
    apply bind_inv in H as (best1 & st2 & Hone & H).
    apply optimize_one_recorded in Hone as [_ Hrec].
    eapply IH; [|eassumption].
    eapply Forall_impl; [|exact Hrec].
    intros r (args & _ & Hv & _). now exists (fst (function args)).
Qed.

Lemma optimize_all_equal_lengths (RT : Runtime) fuel function params bounds st :
  List.length params = List.length bounds ->
  optimize_all fuel function params bounds st
  = while_true fuel function params bounds (sentinel params) (sentinel params)
               (cleared st).
Proof.
  intros Hlen. unfold optimize_all. rewrite Hlen, Nat.eqb_refl. reflexivity.
Qed.

Lemma while_true_sweeps_on (RT : Runtime) function params bounds n c c' :
  sweeps_on function params bounds n c c' ->
  forall fuel,
    while_true (n + fuel) function params bounds (fst (fst c)) (snd (fst c))
               (snd c)
    = while_true fuel function params bounds (fst (fst c')) (snd (fst c'))
                 (snd c').
Proof.
  induction 1 as [c|n best previous st best' st' diff c Hsweep Hsub Hlt _ IH];
    intros fuel; [reflexivity|].
  simpl. rewrite Hsweep, Hsub, Hlt. apply IH.
Qed.

Lemma sweeps_on_snoc (RT : Runtime) function params bounds n c
      best previous st best' st' diff :
  sweeps_on function params bounds n c (best, previous, st) ->
  sweep function params bounds best st = Returns best' st' ->
  py_sub (result_value best') (result_value previous) = inr diff ->
  py_lt diff (PInt MIN_DIFF_BETWEEN_ITERATIONS) = false ->
  sweeps_on function params bounds (S n) c (best', best', st').
Proof.
  intros Hon. remember (best, previous, st) as c' eqn:Hc'.
  revert best previous st Hc'.
  induction Hon as [c|n b p s b1 s1 d c Hsweep Hsub Hlt Hon IH];
    intros best previous st -> Hsw Hsb Hl.
  - eapply sweeps_more; [eassumption..|apply sweeps_none].
  - eapply sweeps_more; [eassumption..|]. eapply IH; [reflexivity|eassumption..].
Qed.

Lemma demo_first_sweep_goes_on (score : float) (diff : pynum) :
  sweep (RT := demo_runtime (solve_at [1%float])) (echo_with score)
        demo_params demo_bounds (sentinel demo_params) (cleared (fresh_state 1))
  = Returns (demo_result score 1) (demo_state score 1) ->
  py_sub (PFloat score) (PInt 0) = inr diff ->
  py_lt diff (PInt MIN_DIFF_BETWEEN_ITERATIONS) = false ->
  sweeps_on (RT := demo_runtime (solve_at [1%float])) (echo_with score)
            demo_params demo_bounds 1
            (sentinel demo_params, sentinel demo_params,
             cleared (fresh_state 1))
            (demo_result score 1, demo_result score 1, demo_state score 1).
Proof.
  intros Hsweep Hsub Hlt.
  eapply sweeps_more; [exact Hsweep|exact Hsub|exact Hlt|apply sweeps_none].
Qed.

(** ** C1: the convergence test *)

(** C1. Take any run of [optimize_all] in which [n] sweeps went on and the
    next sweep completes with [best_result'], the loop holding
    [previous] as [result_of_all_params_iteration].
    - If [best_result'.value - previous.value < 30], [optimize_all] returns
      [previous], the result kept from the sweep before, not [best_result'].
    - If the difference is exactly [30], as an int or as a float, the test
      fails: one more sweep went on, and the run goes on from
      [best_result'] with the sweeps still allowed. *)
Theorem converged_returns_previous_sweep :
  forall (RT : Runtime) function params bounds st n
         best_result previous st1 best_result' st2 diff,
    List.length params = List.length bounds ->
    sweeps_on function params bounds n
              (sentinel params, sentinel params, cleared st)
              (best_result, previous, st1) ->
    sweep function params bounds best_result st1 = Returns best_result' st2 ->
    py_sub (result_value best_result') (result_value previous) = inr diff ->
    (py_lt diff (PInt MIN_DIFF_BETWEEN_ITERATIONS) = true ->
     forall fuel,
       optimize_all (S n + fuel) function params bounds st
       = Some (Returns previous st2))
    /\ (diff = PInt MIN_DIFF_BETWEEN_ITERATIONS \/ diff = PFloat 30 ->
        sweeps_on function params bounds (S n)
                  (sentinel params, sentinel params, cleared st)
                  (best_result', best_result', st2)
        /\ forall fuel,
             optimize_all (S n + fuel) function params bounds st
             = while_true fuel function params bounds
                          best_result' best_result' st2).
Proof.
  intros RT function params bounds st n best previous st1 best' st2 diff
         Hlen Hon Hsweep Hsub.
  pose proof (while_true_sweeps_on _ _ _ _ _ _ _ Hon) as Hrun.
  simpl in Hrun.
  split.
  - intros Hlt fuel.
    rewrite optimize_all_equal_lengths by assumption.
    replace (S n + fuel)%nat with (n + S fuel)%nat by lia.
    rewrite Hrun. simpl. now rewrite Hsweep, Hsub, Hlt.
  - intros Heq.
    assert (Hlt : py_lt diff (PInt MIN_DIFF_BETWEEN_ITERATIONS) = false)
      by (destruct Heq as [-> | ->]; reflexivity).
    split.
    + eapply sweeps_on_snoc; eassumption.
    + intros fuel.
      rewrite optimize_all_equal_lengths by assumption.
      replace (S n + fuel)%nat with (n + S fuel)%nat by lia.
      rewrite Hrun. simpl. now rewrite Hsweep, Hsub, Hlt.
Qed.

Lemma converged_returns_previous_sweep_witness :
  (forall fuel,
     optimize_all (RT := demo_runtime (solve_at [1%float])) (2 + fuel)
                  (echo_with 40) demo_params demo_bounds (fresh_state 1)
     = Some (Returns (demo_result 40 1) (demo_state 40 2)))
  /\ (sweeps_on (RT := demo_runtime (solve_at [1%float])) (echo_with 30)
                demo_params demo_bounds 1
                (sentinel demo_params, sentinel demo_params,
                 cleared (fresh_state 1))
                (demo_result 30 1, demo_result 30 1, demo_state 30 1)
      /\ forall fuel,
           optimize_all (RT := demo_runtime (solve_at [1%float])) (1 + fuel)
                        (echo_with 30) demo_params demo_bounds (fresh_state 1)
           = while_true (RT := demo_runtime (solve_at [1%float])) fuel
                        (echo_with 30) demo_params demo_bounds
                        (demo_result 30 1) (demo_result 30 1)
                        (demo_state 30 1)).
Proof.
  split.
  - apply (proj1 (converged_returns_previous_sweep
                    (demo_runtime (solve_at [1%float])) (echo_with 40)
                    demo_params demo_bounds (fresh_state 1) 1
                    (demo_result 40 1) (demo_result 40 1) (demo_state 40 1)
                    (demo_result 40 2) (demo_state 40 2) (PFloat 0)
                    eq_refl
                    (demo_first_sweep_goes_on 40 (PFloat 40)
                                              eq_refl eq_refl eq_refl)
                    eq_refl eq_refl)).
    reflexivity.
  - apply (proj2 (converged_returns_previous_sweep
                    (demo_runtime (solve_at [1%float])) (echo_with 30)
                    demo_params demo_bounds (fresh_state 1) 0
                    (sentinel demo_params) (sentinel demo_params)
                    (cleared (fresh_state 1))
                    (demo_result 30 1) (demo_state 30 1) (PFloat 30)
                    eq_refl (sweeps_none _ _ _ _) eq_refl eq_refl)).
    right. reflexivity.
Defined.

(** ** C2: what [optimize_one] returns *)

(** C2, as the code has it. Let the solver's run end with at least one
    evaluation recorded since the [clear()] that opens [optimize_one], all
    recorded scores being numbers (no NaN). Then [optimize_one] returns; what
    it returns is one of the recorded results, not something the solver
    reports, and no recorded result has a greater value: every recorded value
    is [<=] the returned one. The solver and the objective are arbitrary, so
    this holds in whatever order the results were recorded. *)
Theorem optimize_one_returns_best_recorded :
  forall (RT : Runtime) function param param_bounds i fixed st st1,
    run_solver (minimize (value param) param_bounds)
               (fun x => func_to_optimize function fixed x i
                                          (ratio param) (is_int param))
               (cleared st)
    = Returns tt st1 ->
    results_of_single_param_optimization st1 <> [] ->
    (forall r v, In r (results_of_single_param_optimization st1) ->
                 result_value r = PFloat v -> is_nan v = false) ->
    exists r st2,
      optimize_one function param param_bounds i fixed st = Returns r st2
      /\ In r (results_of_single_param_optimization st1)
      /\ forall r', In r' (results_of_single_param_optimization st1) ->
           exists v v',
             result_value r = PFloat v /\ result_value r' = PFloat v'
             /\ (v' <=? v)%float = true.
Proof.
  intros RT function param param_bounds i fixed st st1 Hrun Hne Hnum.
  pose proof (run_solver_appends RT (recorded_by function fixed) _
                (fun x s y s' => func_to_optimize_appends RT function fixed x i
                                   (ratio param) (is_int param) s y s')
                _ _ _ _ Hrun) as (rs & Hrs & Hrec).
  simpl in Hrs. subst rs.
  set (recorded := results_of_single_param_optimization st1) in *.
  assert (Hord : Forall ordered_score recorded).
  { apply Forall_forall. intros r Hr.
    pose proof (proj1 (Forall_forall _ _) Hrec r Hr) as (args & _ & Hv & _).
    exists (fst (function args)). split; [assumption|]. eapply Hnum; eassumption. }
  rewrite optimize_one_unfold, Hrun. fold recorded.
  rewrite (sort_orders recorded Hord).
  destruct (sort_desc recorded) as [|h t] eqn:Hsort.
  - apply sort_desc_nil in Hsort. contradiction.
  - assert (Hh : In h recorded)
      by (apply sort_desc_In; rewrite Hsort; now left).
    eexists h, _. split; [reflexivity|]. split; [assumption|].
    intros r' Hr'.
    pose proof (sort_desc_head recorded Hord h t Hsort r' Hr') as Hmax.
    pose proof (proj1 (Forall_forall _ _) Hord h Hh) as (v & Hv & Hnv).
    pose proof (proj1 (Forall_forall _ _) Hord r' Hr') as (v' & Hv' & Hnv').
    exists v, v'. repeat split; try assumption.
    rewrite Hv, Hv' in Hmax. simpl in Hmax.
    now apply leb_of_not_ltb.
Qed.

Lemma optimize_one_returns_best_recorded_witness :
  exists r st2,
    optimize_one (RT := demo_runtime (solve_at [1; 3; 4]%float))
                 peak_objective shared_param (PInt 0, PInt 5) 0 []
                 (fresh_state 1)
    = Returns r st2
    /\ In r (results_of_single_param_optimization peak_recorded)
    /\ forall r', In r' (results_of_single_param_optimization peak_recorded) ->
         exists v v',
           result_value r = PFloat v /\ result_value r' = PFloat v'
           /\ (v' <=? v)%float = true.
Proof.
  apply (optimize_one_returns_best_recorded
           (demo_runtime (solve_at [1; 3; 4]%float)) peak_objective
           shared_param (PInt 0, PInt 5) 0 [] (fresh_state 1) peak_recorded).
  - reflexivity.
  - discriminate.
  - intros r v [<-|[<-|[<-|[]]]] Hv; injection Hv as <-; reflexivity.
Defined.

(** The sort leaves a history alone in which no value is below the next one,
    and [optimize_one] returns the result recorded first. *)
Lemma first_of_a_run_is_returned (RT : Runtime) function param param_bounds i
      fixed st st1 r rest :
  run_solver (minimize (value param) param_bounds)
             (fun x => func_to_optimize function fixed x i
                                        (ratio param) (is_int param))
             (cleared st)
  = Returns tt st1 ->
  results_of_single_param_optimization st1 = r :: rest ->
  Sorted not_below (r :: rest) ->
  optimize_one function param param_bounds i fixed st = Returns r st1.
Proof.
  intros Hrun Hres Hsorted.
  rewrite optimize_one_unfold, Hrun, Hres, (sort_keeps_a_run _ Hsorted).
  rewrite <- Hres. now destruct st1.
Qed.

(** Without the condition on the scores the maximum need not come back. The
    solver evaluates four points and the scores [20], NaN, [30] and [10] are
    recorded in this order. NaN is below nothing and nothing is below NaN, so
    no recorded value is below the next one: the sort, which compares with
    [<] only, leaves the history as it is, and [optimize_one] returns the
    result of value [20], though one of value [30] was recorded. *)
Lemma nan_score_hides_the_maximum :
  optimize_one (RT := demo_runtime (solve_at [1; 2; 3; 4]%float))
               nan_among_objective shared_param (PInt 0, PInt 5) 0 []
               (fresh_state 1)
  = Returns (peak_result 20 1 1) nan_among_recorded
  /\ In (peak_result 30 3 3)
        (results_of_single_param_optimization nan_among_recorded)
  /\ py_lt (result_value (peak_result 20 1 1))
           (result_value (peak_result 30 3 3)) = true.
Proof.
  split; [|split; [right; right; now left|reflexivity]].
  apply (first_of_a_run_is_returned
           (demo_runtime (solve_at [1; 2; 3; 4]%float)) nan_among_objective
           shared_param (PInt 0, PInt 5) 0 [] (fresh_state 1)
           nan_among_recorded (peak_result 20 1 1)
           [peak_result nan 2 2; peak_result 30 3 3; peak_result 10 4 4]).
  - vm_compute. reflexivity.
  - reflexivity.
  - repeat constructor.
Qed.

Example peak_is_returned :
  optimize_one (RT := demo_runtime (solve_at [1; 3; 4]%float))
               peak_objective shared_param (PInt 0, PInt 5) 0 []
               (fresh_state 1)
  = Returns
      (peak_result 30 2 3)
      {| results_of_single_param_optimization :=
           [peak_result 30 2 3; peak_result 20 3 4; peak_result 10 1 1];
         next_ident := 4;
         evaluations := [ [Num (PFloat 1)]; [Num (PFloat 3)]; [Num (PFloat 4)] ] |}.
Proof. vm_compute. reflexivity. Qed.

(** ** C3: the encoding *)

(** C3, as the code has it. For every parameter, [_gather_params_to_pass]
    emits the value's text followed by [k] for a ratio; otherwise, in float
    mode, [float(value)]; and in int mode [int(value)], which leaves an int as
    it is and cuts a float toward zero: the integer [n] emitted for the float
    [m * 2^e] of sign [s] has the sign of the float and
    [|n| <= m * 2^e < |n| + 1]. *)
Theorem encode_truncates :
  forall (RT : Runtime) (p : Param),
    (ratio p = true ->
     encode (value p) (ratio p) (is_int p)
     = inr (Str (str_of_num (value p) ++ "k")%string))
    /\ (ratio p = false -> is_int p = false ->
        encode (value p) (ratio p) (is_int p)
        = match py_float (value p) with
          | inl e => inl e
          | inr x => inr (Num (PFloat x))
          end)
    /\ (ratio p = false -> is_int p = true ->
        forall n, value p = PInt n ->
        encode (value p) (ratio p) (is_int p) = inr (Num (PInt n)))
    /\ (ratio p = false -> is_int p = true ->
        forall x s m e,
          value p = PFloat x -> Prim2SF x = S754_finite s m e ->
          exists n,
            encode (value p) (ratio p) (is_int p) = inr (Num (PInt n))
            /\ Z.abs n * 2 ^ Z.max 0 (- e) <= Zpos m * 2 ^ Z.max 0 e
                                           < (Z.abs n + 1) * 2 ^ Z.max 0 (- e)
            /\ (if s then n <= 0 else 0 <= n)).
Proof.
  intros RT p. repeat split.
  - intros ->. reflexivity.
  - intros -> ->. reflexivity.
  - intros -> -> n ->. reflexivity.
  - intros -> -> x s m e -> Hx.
    exists (trunc_dyadic s m e). split.
    + unfold encode, py_int, int_of_float. now rewrite Hx.
    + apply trunc_dyadic_bounds.
Qed.

Lemma encode_truncates_witness :
  exists n,
    encode (RT := demo_runtime solve_nothing) (value int_mode_param)
           (ratio int_mode_param) (is_int int_mode_param)
    = inr (Num (PInt n))
    /\ Z.abs n * 2 ^ Z.max 0 (- (-51)) <= 6192449487634432 * 2 ^ Z.max 0 (-51)
                                       < (Z.abs n + 1) * 2 ^ Z.max 0 (- (-51))
    /\ 0 <= n.
Proof.
  apply (proj2 (proj2 (proj2
           (encode_truncates (demo_runtime solve_nothing) int_mode_param)))
           eq_refl eq_refl 2.75%float false 6192449487634432%positive (-51));
    reflexivity.
Defined.

(** The description's [Int(round(value))] is not what the code emits: [2.75]
    is encoded as [2], and rounds to [3]. *)
Lemma encode_is_not_rounding :
  encode (RT := demo_runtime solve_nothing) (value int_mode_param)
         (ratio int_mode_param) (is_int int_mode_param)
  = inr (Num (PInt 2))
  /\ encode_described (RT := demo_runtime solve_nothing) (value int_mode_param)
                      (ratio int_mode_param) (is_int int_mode_param)
     = inr (Num (PInt 3)).
Proof. split; vm_compute; reflexivity. Qed.

(** ** C4: encoding, then decoding *)

(** C4, as the code has it. Decoding the encoded form of a parameter gives a
    new parameter with the same [ratio] flag. For a ratio its [is_int] is
    false whatever the original's, and its value is the float read back from
    the printed value. For a non-ratio the [is_int] flag is the original's;
    the value is [float(value)] in float mode and [int(value)], the value cut
    toward zero, in int mode. *)
Theorem codec_round_trip :
  forall (RT : Runtime) (p : Param) (st : state),
    (ratio p = true ->
     forall x, float_of_str (str_of_num (value p)) = Some x ->
       round_trip p st
       = Returns {| ident := next_ident st; value := PFloat x;
                    ratio := true; is_int := false |} (allocated st))
    /\ (ratio p = false -> is_int p = false ->
        forall x, py_float (value p) = inr x ->
          round_trip p st
          = Returns {| ident := next_ident st; value := PFloat x;
                       ratio := false; is_int := false |} (allocated st))
    /\ (ratio p = false -> is_int p = true ->
        forall n, py_int (value p) = inr n ->
          round_trip p st
          = Returns {| ident := next_ident st; value := PInt n;
                       ratio := false; is_int := true |} (allocated st)).
Proof.
  intros RT [id v r i] st. simpl. unfold round_trip. simpl. repeat split.
  - intros -> x Hx. unfold encode. simpl. unfold bind. simpl.
    rewrite drop_last_app_char, Hx. reflexivity.
  - intros -> -> x Hx. unfold encode. rewrite Hx. reflexivity.
  - intros -> -> n Hn. unfold encode. rewrite Hn. reflexivity.
Qed.

Lemma codec_round_trip_witness :
  round_trip (RT := demo_runtime solve_nothing) ratio_param (fresh_state 1)
  = Returns {| ident := 1; value := PFloat 10; ratio := true; is_int := false |}
            (allocated (fresh_state 1)).
Proof.
  apply (proj1 (codec_round_trip (demo_runtime solve_nothing) ratio_param
                                 (fresh_state 1)) eq_refl 10%float).
  reflexivity.
Defined.

(** The round trip of the description fails on both counts: the ratio
    parameter above comes back with [is_int] false, and the int-mode [2.75]
    comes back as [2]. *)
Lemma round_trip_not_as_described :
  ~ round_trip_described (RT := demo_runtime solve_nothing) ratio_param
  /\ ~ round_trip_described (RT := demo_runtime solve_nothing) int_mode_param.
Proof.
  split; intros H.
  - destruct (H (fresh_state 1) _ _ eq_refl) as (_ & Hint & _).
    discriminate Hint.
  - destruct (H (fresh_state 1) _ _ eq_refl) as (_ & _ & Hval).
    vm_compute in Hval. discriminate Hval.
Qed.

(** ** C5: the fixed parameters *)

(** C5. On the tuple [(p, p)] that holds one object twice, the comprehension
    of [optimize_all] drops both elements for dimension 0, where removal by
    position keeps one: the objective is then called with one value instead of
    two, the result has one setting, and dimension 1 fails on
    [settings[1]]. *)
Theorem fixed_params_drop_every_alias :
  fixed_params_of (sentinel [shared_param; shared_param]) shared_param = []
  /\ remove_at 0 [shared_param; shared_param] = [shared_param]
  /\ optimize_all (RT := demo_runtime (solve_at [1%float])) 1
                  (echo_with 1) [shared_param; shared_param]
                  [(PInt 0, PInt 2); (PInt 0, PInt 2)] (fresh_state 1)
     = Some (Raises IndexError
               {| results_of_single_param_optimization :=
                    [ {| result_value := PFloat 1;
                         settings := [ {| ident := 1; value := PFloat 1;
                                          ratio := false; is_int := false |} ] |} ];
                  next_ident := 2;
                  evaluations := [ [Num (PFloat 1)] ] |}).
Proof. repeat split; vm_compute; reflexivity. Qed.

(** ** C6: the length check comes first *)

(** C6. When [params] and [bounds] differ in length, [optimize_all] raises
    [DifferentListLengthException] (the description's LengthMismatch) in the
    very state it was called in: nothing was cleared and the log of objective
    calls is the one it started with, so no evaluation took place, whatever
    the number of sweeps allowed. *)
Theorem optimize_all_length_mismatch :
  forall (RT : Runtime) fuel function params bounds st,
    List.length params <> List.length bounds ->
    optimize_all fuel function params bounds st
    = Some (Raises DifferentListLengthException st).
Proof.
  intros RT fuel function params bounds st Hlen.
  unfold optimize_all.
  apply Nat.eqb_neq in Hlen. now rewrite Hlen.
Qed.

Lemma optimize_all_length_mismatch_witness :
  optimize_all (RT := demo_runtime (solve_at [1%float])) 3 (echo_with 1)
               two_params [ (PInt 0, PInt 1) ] (fresh_state 2)
  = Some (Raises DifferentListLengthException (fresh_state 2)).
Proof. apply optimize_all_length_mismatch. simpl. lia. Defined.

(** ** C7: the echoed settings are taken as they come *)

(** C7, as the code has it. [func_to_optimize] compares no lengths: whatever
    sequence the objective echoes, once its values are decoded the evaluation
    is recorded with as many settings as were echoed and the negated score goes
    back to the solver. No exception comes from the length. *)
Theorem func_to_optimize_records_any_length :
  forall (RT : Runtime) function fixed x i r b st args ps st',
    _gather_params_to_pass x i r b fixed = inr args ->
    decode_all (snd (function args)) (logged st args) = Returns ps st' ->
    func_to_optimize function fixed x i r b st
    = Returns (- fst (function args))%float
              (appended st' {| result_value := PFloat (fst (function args));
                               settings := ps |})
    /\ List.length ps = List.length (snd (function args)).
Proof.
  intros RT function fixed x i r b st args ps st' Hargs Hdec.
  split; [|eapply decode_all_length; eassumption].
  unfold func_to_optimize. rewrite Hargs. simpl.
  unfold bind at 1. simpl. unfold bind at 1. unfold call at 1.
  unfold bind at 1. rewrite Hdec. reflexivity.
Qed.

Lemma func_to_optimize_records_any_length_witness :
  func_to_optimize (RT := demo_runtime solve_nothing) echo_nothing []
                   1%float 0 false false (fresh_state 0)
  = Returns (- 1)%float
            {| results_of_single_param_optimization :=
                 [ {| result_value := PFloat 1; settings := [] |} ];
               next_ident := 0;
               evaluations := [ [Num (PFloat 1)] ] |}
  /\ List.length (@nil Param) = List.length (@nil pyval).
Proof.
  apply (func_to_optimize_records_any_length (demo_runtime solve_nothing)
           echo_nothing [] 1%float 0 false false (fresh_state 0)
           [Num (PFloat 1)] []
           (logged (fresh_state 0) [Num (PFloat 1)]));
    reflexivity.
Defined.

(** With no fixed parameter the objective is given one value; it echoes none,
    so the echoed length is not [len(fixed_params) + 1], and [optimize_one]
    returns the recorded result all the same. *)
Lemma no_dimension_check :
  optimize_one (RT := demo_runtime (solve_at [1%float])) echo_nothing
               shared_param (PInt 0, PInt 2) 0 [] (fresh_state 1)
  = Returns {| result_value := PFloat 1; settings := [] |}
            {| results_of_single_param_optimization :=
                 [ {| result_value := PFloat 1; settings := [] |} ];
               next_ident := 1;
               evaluations := [ [Num (PFloat 1)] ] |}
  /\ List.length (snd (echo_nothing [Num (PFloat 1)]))
     <> (List.length (@nil Param) + 1)%nat.
Proof. split; [vm_compute; reflexivity | simpl; lia]. Qed.

(** ** C8: nothing recorded *)

(** C8. When the solver ends its run without evaluating anything,
    [optimize_one] raises the [IndexError] of [results[0]] on the empty
    history (the description's EmptyHistory), and [optimize_all] lets it
    through unchanged: it ends with that same exception, in the state
    [optimize_one] left. *)
Theorem empty_history_raises :
  forall (RT : Runtime) function param param_bounds i fixed st,
    minimize (value param) param_bounds = Stop ->
    optimize_one function param param_bounds i fixed st
    = Raises IndexError (cleared st)
    /\ forall fuel rest bounds_rest,
         List.length rest = List.length bounds_rest ->
         optimize_all (S fuel) function (param :: rest)
                      (param_bounds :: bounds_rest) st
         = Some (Raises IndexError (cleared st)).
Proof.
  intros RT function param param_bounds i fixed st Hstop.
  assert (Hone : forall j fx s,
             optimize_one function param param_bounds j fx s
             = Raises IndexError (cleared s)).
  { intros j fx s. rewrite optimize_one_unfold, Hstop. simpl.
    now rewrite sorted_of_nil. }
  split; [apply Hone|].
  intros fuel rest bounds_rest Hlen.
  unfold optimize_all. simpl List.length. rewrite Hlen, Nat.eqb_refl. simpl.
  unfold sweep. simpl. unfold bind at 1. simpl. unfold bind at 1. simpl.
  unfold bind at 1. rewrite Hone. reflexivity.
Qed.

Lemma empty_history_raises_witness :
  optimize_one (RT := demo_runtime solve_nothing) (echo_with 1)
               shared_param (PInt 0, PInt 2) 0 [] (fresh_state 1)
  = Raises IndexError (cleared (fresh_state 1))
  /\ forall fuel rest bounds_rest,
       List.length rest = List.length bounds_rest ->
       optimize_all (RT := demo_runtime solve_nothing) (S fuel) (echo_with 1)
                    (shared_param :: rest)
                    ((PInt 0, PInt 2) :: bounds_rest) (fresh_state 1)
       = Some (Raises IndexError (cleared (fresh_state 1))).
Proof. apply empty_history_raises. reflexivity. Defined.

(** ** C9: the length of the settings *)

(** C9. With [params] and [bounds] of equal length and an objective that
    echoes as many settings as it is given values, every result
    [optimize_all] returns has as many settings as there are parameters,
    however many sweeps it took. *)
Theorem optimize_all_settings_length :
  forall (RT : Runtime) function params bounds fuel st r st',
    List.length params = List.length bounds ->
    (forall args, List.length (snd (function args)) = List.length args) ->
    optimize_all fuel function params bounds st = Some (Returns r st') ->
    List.length (settings r) = List.length params.
Proof.
  intros RT function params bounds fuel st r st' Hlen Hecho H.
  rewrite optimize_all_equal_lengths in H by assumption.
  eapply while_true_shape; [eassumption| | |eassumption]; reflexivity.
Qed.

Lemma optimize_all_settings_length_witness :
  optimize_all (RT := demo_runtime (solve_at [1.5%float])) 2 (echo_with 40)
               two_params two_bounds (fresh_state 2)
  = Some (Returns
            {| result_value := PFloat 40; settings := two_settings 4 |}
            {| results_of_single_param_optimization :=
                 [ {| result_value := PFloat 40; settings := two_settings 8 |} ];
               next_ident := 10;
               evaluations :=
                 [ [Num (PFloat 1.5); Str "2k"]; [Num (PFloat 1.5); Str "1.5k"];
                   [Num (PFloat 1.5); Str "1.5k"]; [Num (PFloat 1.5); Str "1.5k"] ] |})
  /\ List.length (settings {| result_value := PFloat 40;
                              settings := two_settings 4 |})
     = List.length two_params.
Proof.
  split; [vm_compute; reflexivity|].
  apply (optimize_all_settings_length
           (demo_runtime (solve_at [1.5%float])) (echo_with 40)
           two_params two_bounds 2 (fresh_state 2)
           {| result_value := PFloat 40; settings := two_settings 4 |}
           {| results_of_single_param_optimization :=
                [ {| result_value := PFloat 40; settings := two_settings 8 |} ];
              next_ident := 10;
              evaluations :=
                [ [Num (PFloat 1.5); Str "2k"]; [Num (PFloat 1.5); Str "1.5k"];
                  [Num (PFloat 1.5); Str "1.5k"]; [Num (PFloat 1.5); Str "1.5k"] ] |}).
  - reflexivity.
  - intros args. reflexivity.
  - vm_compute. reflexivity.
Defined.

(** ** C10: the sentinel comes back *)

(** C10. Both loop variables start as the sentinel
    [Result(value=0, settings=params)]. When the first sweep completes with a
    best result whose value is below [30], [optimize_all] returns the
    sentinel: its value is the int [0] and its settings are the caller's
    parameters, the very objects passed in. It is not a recorded result:
    every result in the history carries the score of an evaluation. *)
Theorem first_sweep_below_threshold_returns_sentinel :
  forall (RT : Runtime) function params bounds st best_result' st' fuel,
    List.length params = List.length bounds ->
    sweep function params bounds (sentinel params) (cleared st)
    = Returns best_result' st' ->
    py_lt (result_value best_result') (PInt MIN_DIFF_BETWEEN_ITERATIONS) = true ->
    optimize_all (S fuel) function params bounds st
    = Some (Returns {| result_value := PInt 0; settings := params |} st')
    /\ ~ In {| result_value := PInt 0; settings := params |}
            (results_of_single_param_optimization st').
Proof.
  intros RT function params bounds st best' st' fuel Hlen Hsweep Hlt.
  split.
  - rewrite optimize_all_equal_lengths by assumption. simpl.
    rewrite Hsweep.
    destruct (below_threshold_from_zero _ Hlt) as (diff & Hsub & Hd).
    change (result_value (sentinel params)) with (PInt 0).
    now rewrite Hsub, Hd.
  - intros Hin.
    unfold sweep in Hsweep.
    apply for_each_param_scored in Hsweep; [|constructor].
    pose proof (proj1 (Forall_forall _ _) Hsweep _ Hin) as (v & Hv).
    discriminate Hv.
Qed.

Lemma first_sweep_below_threshold_returns_sentinel_witness :
  optimize_all (RT := demo_runtime (solve_at [1.5%float])) 1 (echo_with 29.5)
               two_params two_bounds (fresh_state 2)
  = Some (Returns
            {| result_value := PInt 0; settings := two_params |}
            {| results_of_single_param_optimization :=
                 [ {| result_value := PFloat 29.5; settings := two_settings 4 |} ];
               next_ident := 6;
               evaluations :=
                 [ [Num (PFloat 1.5); Str "2k"]; [Num (PFloat 1.5); Str "1.5k"] ] |})
  /\ ~ In {| result_value := PInt 0; settings := two_params |}
          [ {| result_value := PFloat 29.5; settings := two_settings 4 |} ].
Proof.
  apply (first_sweep_below_threshold_returns_sentinel
           (demo_runtime (solve_at [1.5%float])) (echo_with 29.5)
           two_params two_bounds (fresh_state 2)
           {| result_value := PFloat 29.5; settings := two_settings 4 |}
           {| results_of_single_param_optimization :=
                [ {| result_value := PFloat 29.5; settings := two_settings 4 |} ];
              next_ident := 6;
              evaluations :=
                [ [Num (PFloat 1.5); Str "2k"]; [Num (PFloat 1.5); Str "1.5k"] ] |}
           0%nat).
  - reflexivity.
  - vm_compute. reflexivity.
  - reflexivity.
Defined.

(** * Further properties of the code *)

(** ** [_gather_params_to_pass]: where the candidate goes *)

Lemma py_insert_nth {A} i (x : A) l :
  nth_error (py_insert i x l) (Nat.min i (List.length l)) = Some x.
Proof.
  unfold py_insert.
  rewrite nth_error_app2; rewrite length_firstn; [|lia].
  now rewrite Nat.sub_diag.
Qed.

Lemma remove_at_middle {A} (a : list A) x b :
  remove_at (List.length a) (a ++ x :: b) = a ++ b.
Proof.
  unfold remove_at. induction a as [|y a IH]; [reflexivity|].
  cbn [List.length firstn skipn app]. f_equal. exact IH.
Qed.

Lemma py_insert_remove_at {A} i (x : A) l :
  remove_at (Nat.min i (List.length l)) (py_insert i x l) = l.
Proof.
  unfold py_insert. rewrite <- (length_firstn i l).
  rewrite remove_at_middle. apply firstn_skipn.
Qed.

Lemma encode_fixed_pointwise (RT : Runtime) fixed :
  forall vs,
    encode_fixed fixed = inr vs ->
    Forall2 (fun p v => encode (value p) (ratio p) (is_int p) = inr v)
            fixed vs.
Proof.
  induction fixed as [|p fixed IH]; simpl; intros vs H.
  - injection H as <-. constructor.
  - destruct (encode _ _ _) as [e|v] eqn:Hp; [discriminate|].
    destruct (encode_fixed fixed) as [e|vs']; [discriminate|].
    injection H as <-. constructor; [exact Hp|now apply IH].
Qed.

(** X1. The tuple [_gather_params_to_pass] builds holds the encoded candidate
    at [param_index], or at the end when [param_index] is past it, and the
    fixed parameters around it, each encoded in its own mode, in their
    order: taking the candidate out gives them back. *)
Theorem gather_places_candidate :
  forall (RT : Runtime) x i r b fixed args,
    _gather_params_to_pass x i r b fixed = inr args ->
    exists v vs,
      encode (PFloat x) r b = inr v
      /\ Forall2 (fun p w => encode (value p) (ratio p) (is_int p) = inr w)
                 fixed vs
      /\ nth_error args (Nat.min i (List.length fixed)) = Some v
      /\ remove_at (Nat.min i (List.length fixed)) args = vs.
Proof.
  intros RT x i r b fixed args. unfold _gather_params_to_pass.
  destruct (encode_fixed fixed) as [e|vs] eqn:Hvs; [discriminate|].
  destruct (encode (PFloat x) r b) as [e|v] eqn:Hv; [discriminate|].
  intros H. injection H as <-.
  pose proof (encode_fixed_length RT fixed vs Hvs) as Hlen.
  exists v, vs. repeat split.
  - now apply encode_fixed_pointwise.
  - rewrite <- Hlen. apply py_insert_nth.
  - rewrite <- Hlen. apply py_insert_remove_at.
Qed.

Lemma gather_places_candidate_witness :
  exists v vs,
    encode (RT := demo_runtime solve_nothing) (PFloat 1.5) true false = inr v
    /\ Forall2 (fun p w => encode (RT := demo_runtime solve_nothing)
                                  (value p) (ratio p) (is_int p) = inr w)
               two_params vs
    /\ nth_error [Num (PFloat 1); Str "1.5k"; Str "2k"]
                 (Nat.min 1 (List.length two_params)) = Some v
    /\ remove_at (Nat.min 1 (List.length two_params))
                 [Num (PFloat 1); Str "1.5k"; Str "2k"] = vs.
Proof.
  apply (gather_places_candidate (demo_runtime solve_nothing) 1.5%float 1
                                 true false two_params).
  reflexivity.
Defined.

(** ** A candidate that has no integer *)

Lemma Prim2SF_nan (x : float) : is_nan x = true -> Prim2SF x = S754_nan.
Proof. unfold Prim2SF. now intros ->. Qed.

Lemma Prim2SF_infinity (x : float) :
  is_infinity x = true -> exists s, Prim2SF x = S754_infinity s.
Proof.
  unfold is_infinity. rewrite eqb_spec, abs_spec.
  change (Prim2SF infinity) with (S754_infinity false).
  destruct (Prim2SF x) as [s|s| |s m e]; simpl; try discriminate.
  intros _. now exists s.
Qed.

(** X2. In int mode a candidate that is NaN makes [func_to_optimize] raise
    [ValueError], and an infinite one [OverflowError], from [int(param)]: the
    objective is not called and nothing is recorded, the store is as it was.
    A ratio or float-mode candidate is encoded whatever the float. *)
Theorem candidate_without_integer :
  forall (RT : Runtime) function fixed vs x i st,
    encode_fixed fixed = inr vs ->
    (is_nan x = true ->
     func_to_optimize function fixed x i false true st = Raises ValueError st)
    /\ (is_infinity x = true ->
        func_to_optimize function fixed x i false true st
        = Raises OverflowError st)
    /\ (forall b, encode (PFloat x) true b
                  = inr (Str (str_of_num (PFloat x) ++ "k")%string))
    /\ encode (PFloat x) false false = inr (Num (PFloat x)).
Proof.
  intros RT function fixed vs x i st Hvs. repeat split.
  - intros Hnan. unfold func_to_optimize, _gather_params_to_pass.
    rewrite Hvs. unfold encode, py_int, int_of_float.
    now rewrite (Prim2SF_nan x Hnan).
  - intros Hinf. unfold func_to_optimize, _gather_params_to_pass.
    rewrite Hvs. unfold encode, py_int, int_of_float.
    destruct (Prim2SF_infinity x Hinf) as [s ->]. reflexivity.
Qed.

Lemma candidate_without_integer_witness :
  func_to_optimize (RT := demo_runtime solve_nothing) (echo_with 1)
                   two_params nan 0 false true (fresh_state 2)
  = Raises ValueError (fresh_state 2)
  /\ func_to_optimize (RT := demo_runtime solve_nothing) (echo_with 1)
                      two_params neg_infinity 0 false true (fresh_state 2)
     = Raises OverflowError (fresh_state 2).
Proof.
  split.
  - apply (proj1 (candidate_without_integer
                    (demo_runtime solve_nothing) (echo_with 1) two_params
                    [Num (PFloat 1); Str "2k"] nan 0%nat (fresh_state 2)
                    eq_refl)).
    reflexivity.
  - apply (proj1 (proj2 (candidate_without_integer
                    (demo_runtime solve_nothing) (echo_with 1) two_params
                    [Num (PFloat 1); Str "2k"] neg_infinity 0%nat
                    (fresh_state 2) eq_refl))).
    reflexivity.
Defined.

(** ** What [func_to_optimize] decodes *)

Lemma decode_well_moded (RT : Runtime) v st p st' :
  decode v st = Returns p st' -> well_moded p.
Proof.
  unfold decode, well_moded.
  destruct v as [[n|x]|s]; [| |destruct (float_of_str _) as [y|]; [|discriminate]];
    unfold new_Param; intros H; injection H as <- _; simpl.
  - split; [discriminate|]. split; [intros _; now exists n|reflexivity].
  - split; [discriminate|]. split; [discriminate|intros [n H]; discriminate H].
  - split; [intros _; split; [reflexivity|now exists y]|].
    split; [discriminate|intros [n H]; discriminate H].
Qed.

Lemma decode_all_well_moded (RT : Runtime) echoed :
  forall st ps st',
    decode_all echoed st = Returns ps st' -> Forall well_moded ps.
Proof.
  induction echoed as [|v echoed IH]; simpl; intros st ps st' H.
  - injection H as <- _. constructor.
  - apply bind_inv in H as (p & st1 & Hp & H).
    apply bind_inv in H as (ps' & st2 & Hps & H).
    injection H as <- _. constructor.
    + eapply decode_well_moded; eassumption.
    + eapply IH; eassumption.
Qed.


(** X3. Encoding what was decoded gives the objective its own value back: a
    number the objective echoed, int or float, is decoded to a parameter that
    encodes to that very number, and an echoed string to one that encodes to
    the text of the float read from it, followed by [k]. *)
Theorem decode_then_encode :
  forall (RT : Runtime) setting st p st',
    decode setting st = Returns p st' ->
    match setting with
    | Num v => encode (value p) (ratio p) (is_int p) = inr (Num v)
    | Str s =>
        exists x,
          float_of_str (drop_last s) = Some x
          /\ encode (value p) (ratio p) (is_int p)
             = inr (Str (str_of_num (PFloat x) ++ "k")%string)
    end.
Proof.
  intros RT setting st p st'. unfold decode.
  destruct setting as [[n|x]|s];
    [| |destruct (float_of_str (drop_last s)) as [y|] eqn:Hy; [|discriminate]];
    unfold new_Param; intros H; injection H as <- _; simpl.
  - reflexivity.
  - reflexivity.
  - now exists y.
Qed.

Lemma decode_then_encode_witness :
  encode (RT := demo_runtime solve_nothing) (PInt 7) false true
  = inr (Num (PInt 7)).
Proof.
  apply (decode_then_encode (demo_runtime solve_nothing) (Num (PInt 7))
           (fresh_state 0)
           {| ident := 0; value := PInt 7; ratio := false; is_int := true |}
           (allocated (fresh_state 0))).
  reflexivity.
Defined.

(** ** What one search adds to the store *)

Lemma decode_all_next_ident (RT : Runtime) echoed :
  forall st ps st',
    decode_all echoed st = Returns ps st' ->
    next_ident st' = (next_ident st + List.length ps)%nat.
Proof.
  induction echoed as [|v echoed IH]; simpl; intros st ps st' H.
  - injection H as <- <-. simpl. lia.
  - apply bind_inv in H as (p & st1 & Hp & H).
    apply bind_inv in H as (ps' & st2 & Hps & H).
    injection H as <- <-.
    apply decode_allocates in Hp as [_ ->].
    apply IH in Hps. simpl in *. lia.
Qed.

Lemma search_grows_refl fixed st : search_grows fixed st st.
Proof.
  split; [lia|]. exists [], []. rewrite !app_nil_r. now repeat split.
Qed.

Lemma search_grows_trans fixed st st1 st2 :
  search_grows fixed st st1 -> search_grows fixed st1 st2 ->
  search_grows fixed st st2.
Proof.
  intros (Hle1 & rs1 & es1 & Hr1 & He1 & Hl1 & Hes1 & Hb1)
         (Hle2 & rs2 & es2 & Hr2 & He2 & Hl2 & Hes2 & Hb2).
  split; [lia|]. exists (rs1 ++ rs2), (es1 ++ es2). repeat split.
  - now rewrite Hr2, Hr1, app_assoc.
  - now rewrite He2, He1, app_assoc.
  - rewrite !length_app. lia.
  - apply Forall_app. now split.
  - apply Forall_app. split.
    + eapply Forall_impl; [|exact Hb1]. intros r [Hb Hlt]. split; [exact Hb|].
      eapply Forall_impl; [|exact Hlt]. simpl. intros p Hp. lia.
    + eapply Forall_impl; [|exact Hb2].
      intros r [(Hnd & Hwm & Hfr & Hsc) Hlt]. split; [|exact Hlt].
      repeat split; try assumption.
      eapply Forall_impl; [|exact Hfr]. simpl. intros p Hp. lia.
Qed.

Lemma func_to_optimize_grows (RT : Runtime) function fixed x i r b st y st' :
  func_to_optimize function fixed x i r b st = Returns y st' ->
  search_grows fixed st st'.
Proof.
  unfold func_to_optimize. intros H.
  apply bind_inv in H as (args & st0 & Hargs & H).
  destruct (_gather_params_to_pass x i r b fixed) as [e|args'] eqn:Hg;
    [discriminate|].
  simpl in Hargs. injection Hargs as -> <-.
  apply bind_inv in H as (answer & st1 & Hcall & H).
  unfold call in Hcall. injection Hcall as <- <-.
  apply bind_inv in H as (ps & st2 & Hdec & H).
  apply bind_inv in H as ([] & st3 & Happ & H).
  injection H as _ <-. unfold append in Happ. injection Happ as <-.
  pose proof (decode_all_well_moded _ _ _ _ _ Hdec) as Hwm.
  pose proof (decode_all_next_ident _ _ _ _ _ Hdec) as Hnext.
  apply decode_all_allocates in Hdec as (Hids & Hres & Hev).
  simpl in Hnext, Hids, Hev.
  split; [simpl; lia|].
  exists [ {| result_value := PFloat (fst (function args));
             settings := ps |} ], [args].
  simpl. rewrite Hres, Hev. simpl. repeat split.
  - constructor; [|constructor]. eapply gather_length; eassumption.
  - constructor; [|constructor]. simpl.
    assert (Hin : forall p, In p ps ->
                (next_ident st <= ident p < next_ident st2)%nat).
    { intros p Hp. apply (in_map ident) in Hp. rewrite Hids in Hp.
      apply in_seq in Hp. lia. }
    split; [repeat split|].
    + simpl. rewrite Hids. apply seq_NoDup.
    + exact Hwm.
    + apply Forall_forall. intros p Hp. apply Hin in Hp. lia.
    + now eexists.
    + apply Forall_forall. intros p Hp. apply Hin in Hp. lia.
Qed.

Lemma run_solver_grows (RT : Runtime) function fixed i r b s :
  forall st u st',
    run_solver s (fun x => func_to_optimize function fixed x i r b) st
    = Returns u st' ->
    search_grows fixed st st'.
Proof.
  induction s as [|x k IH|e]; simpl; intros st u st' H.
  - injection H as _ <-. apply search_grows_refl.
  - apply bind_inv in H as (y & st1 & Hy & H).
    eapply search_grows_trans.
    + eapply func_to_optimize_grows; eassumption.
    + eapply IH; eassumption.
  - discriminate H.
Qed.

(** What [optimize_one] leaves when it returns: the store after the solver's
    run, with the history sorted. *)
Lemma optimize_one_returns_inv (RT : Runtime) function param param_bounds i
      fixed st r st' :
  optimize_one function param param_bounds i fixed st = Returns r st' ->
  exists st1 rest,
    run_solver (minimize (value param) param_bounds)
               (fun x => func_to_optimize function fixed x i
                                          (ratio param) (is_int param))
               (cleared st)
    = Returns tt st1
    /\ sort_by_value_reversed (results_of_single_param_optimization st1)
       = r :: rest
    /\ results_of_single_param_optimization st' = r :: rest
    /\ next_ident st' = next_ident st1
    /\ evaluations st' = evaluations st1.
Proof.
  rewrite optimize_one_unfold.
  destruct (run_solver _ _ _) as [[] st1|e st1] eqn:Hrun; [|discriminate].
  destruct (sort_by_value_reversed _) as [|h t] eqn:Hsort; [discriminate|].
  intros H. injection H as <- <-. now exists st1, t.
Qed.

(** X4. When [optimize_one] returns, the history holds exactly one result for
    each call made to the objective during the search, there was at least one
    call, and every call passed one value more than there are fixed
    parameters. *)
Theorem optimize_one_one_result_per_evaluation :
  forall (RT : Runtime) function param param_bounds i fixed st r st',
    optimize_one function param param_bounds i fixed st = Returns r st' ->
    exists es,
      evaluations st' = evaluations st ++ es
      /\ es <> []
      /\ List.length (results_of_single_param_optimization st')
         = List.length es
      /\ Forall (fun e => List.length e = S (List.length fixed)) es.
Proof.
  intros RT function param param_bounds i fixed st r st' H.
  apply optimize_one_returns_inv in H
    as (st1 & rest & Hrun & Hsort & Hres & _ & Hev).
  apply run_solver_grows in Hrun
    as (_ & rs & es & Hrs & Hes & Hlen & Hall & _).
  simpl in Hrs, Hes. exists es. rewrite Hev, Hres, <- Hsort.
  rewrite (Permutation_length (sort_permutes _)), Hrs.
  repeat split; try assumption.
  intros ->. apply (f_equal (@List.length Result)) in Hsort.
  rewrite (Permutation_length (sort_permutes _)), Hrs, Hlen in Hsort.
  discriminate Hsort.
Qed.

Lemma optimize_one_one_result_per_evaluation_witness :
  exists es,
    evaluations
      {| results_of_single_param_optimization :=
           [peak_result 30 2 3; peak_result 20 3 4; peak_result 10 1 1];
         next_ident := 4;
         evaluations := [ [Num (PFloat 1)]; [Num (PFloat 3)]; [Num (PFloat 4)] ] |}
    = evaluations (fresh_state 1) ++ es
    /\ es <> []
    /\ List.length [peak_result 30 2 3; peak_result 20 3 4; peak_result 10 1 1]
       = List.length es
    /\ Forall (fun e => List.length e = S (List.length (@nil Param))) es.
Proof.
  apply (optimize_one_one_result_per_evaluation
           (demo_runtime (solve_at [1; 3; 4]%float)) peak_objective
           shared_param (PInt 0, PInt 5) 0 [] (fresh_state 1)
           (peak_result 30 2 3)).
  vm_compute. reflexivity.
Defined.

Lemma optimize_one_built (RT : Runtime) function param param_bounds i fixed
      st r st' :
  optimize_one function param param_bounds i fixed st = Returns r st' ->
  built_since st r
  /\ Forall (fun p => (ident p < next_ident st')%nat) (settings r)
  /\ (next_ident st <= next_ident st')%nat.
Proof.
  intros H.
  apply optimize_one_returns_inv in H
    as (st1 & rest & Hrun & Hsort & _ & Hnext & _).
  apply run_solver_grows in Hrun as (Hle & rs & es & Hrs & _ & _ & _ & Hall).
  simpl in Hrs, Hle. rewrite Hnext.
  assert (Hin : In r rs).
  { apply (sorted_In RT). rewrite <- Hrs, Hsort. now left. }
  destruct (proj1 (Forall_forall _ _) Hall r Hin)
    as [(Hnd & Hwm & Hfr & Hsc) Hlt].
  split; [|split; [exact Hlt|exact Hle]].
  split; [exact Hnd|]. split; [exact Hwm|]. split; [exact Hfr|exact Hsc].
Qed.

(** X5. The settings of a result [optimize_one] returns are objects built
    during that search: pairwise distinct, none of them an object that
    existed when the search began, the caller's parameters included, and each
    with flags that agree with its value: a ratio holds a float and is not an
    int, and [is_int] tells whether the value is an int. *)
Theorem optimize_one_builds_new_settings :
  forall (RT : Runtime) function param param_bounds i fixed st r st',
    optimize_one function param param_bounds i fixed st = Returns r st' ->
    NoDup (map ident (settings r))
    /\ Forall (fun p => (next_ident st <= ident p < next_ident st')%nat)
              (settings r)
    /\ Forall well_moded (settings r)
    /\ (forall q, (ident q < next_ident st)%nat ->
                  Forall (fun p => is_not p q = true) (settings r)).
Proof.
  intros RT function param param_bounds i fixed st r st' H.
  apply optimize_one_built in H as ((Hnd & Hwm & Hfr & _) & Hlt & _).
  assert (Hrange : Forall (fun p => (next_ident st <= ident p
                                     < next_ident st')%nat) (settings r)).
  { apply Forall_forall. intros p Hp.
    pose proof (proj1 (Forall_forall _ _) Hfr p Hp).
    pose proof (proj1 (Forall_forall _ _) Hlt p Hp). simpl in *. lia. }
  repeat split; try assumption.
  intros q Hq. eapply Forall_impl; [|exact Hfr]. simpl. intros p Hp.
  unfold is_not. apply negb_true_iff, Nat.eqb_neq. lia.
Qed.

Lemma optimize_one_builds_new_settings_witness :
  NoDup (map ident (searched_settings 2))
  /\ Forall (fun p => (next_ident (fresh_state 2) <= ident p < 4)%nat)
            (searched_settings 2)
  /\ Forall well_moded (searched_settings 2)
  /\ (forall q, (ident q < next_ident (fresh_state 2))%nat ->
                Forall (fun p => is_not p q = true) (searched_settings 2)).
Proof.
  apply (optimize_one_builds_new_settings
           (demo_runtime (solve_at [1.5%float])) (echo_with 40)
           {| ident := 1; value := PInt 2; ratio := true; is_int := false |}
           (PInt 0, PInt 5) 1
           [ {| ident := 0; value := PFloat 1; ratio := false; is_int := false |} ]
           (fresh_state 2)
           {| result_value := PFloat 40; settings := searched_settings 2 |}
           {| results_of_single_param_optimization :=
                [ {| result_value := PFloat 40; settings := searched_settings 2 |} ];
              next_ident := 4;
              evaluations := [ [Num (PFloat 1); Str "1.5k"] ] |}).
  vm_compute. reflexivity.
Defined.

(** ** The history after a search *)

Lemma insert_desc_strongly_sorted r l :
  ordered_score r -> Forall ordered_score l ->
  StronglySorted not_below l -> StronglySorted not_below (insert_desc r l).
Proof.
  intros (vr & Hvr & Hnr) Hl.
  induction 1 as [|h t Ht IH Hhd]; simpl.
  - repeat constructor.
  - inversion Hl as [|? ? (vh & Hvh & Hnh) Hl']; subst.
    destruct (py_lt (result_value r) (result_value h)) eqn:Hrh.
    + constructor; [now apply IH|].
      apply Forall_forall. intros x Hx. apply insert_desc_In in Hx.
      destruct Hx as [->|Hx].
      * unfold not_below. rewrite Hvr, Hvh in *. now apply ltb_asym.
      * exact (proj1 (Forall_forall _ _) Hhd x Hx).
    + constructor; [now constructor|].
      constructor; [exact Hrh|].
      apply Forall_forall. intros x Hx.
      pose proof (proj1 (Forall_forall _ _) Hhd x Hx) as Hhx.
      pose proof (proj1 (Forall_forall _ _) Hl' x Hx) as (vx & Hvx & Hnx).
      unfold not_below in *. rewrite Hvr, Hvh, Hvx in *. simpl in *.
      destruct (vr <? vx)%float eqn:Hrx; [|reflexivity].
      destruct (ltb_cotrans vr vh vx Hnh Hrx); congruence.
Qed.

Lemma sort_desc_strongly_sorted l :
  Forall ordered_score l -> StronglySorted not_below (sort_desc l).
Proof.
  induction 1 as [|r l Hr Hl IH]; simpl; [constructor|].
  apply insert_desc_strongly_sorted; try assumption.
  apply Forall_forall. intros x Hx.
  exact (proj1 (Forall_forall _ _) Hl x (proj1 (sort_desc_In x l) Hx)).
Qed.

(** The first of the results with the greatest value comes first. *)
Lemma sort_desc_first_greatest before r after :
  Forall (fun a => py_lt (result_value a) (result_value r) = true) before ->
  Forall (fun b => py_lt (result_value r) (result_value b) = false) after ->
  exists rest, sort_desc (before ++ r :: after) = r :: rest.
Proof.
  intros Hbefore Hafter.
  induction Hbefore as [|a before Ha _ IH]; simpl.
  - destruct (sort_desc after) as [|h t] eqn:Hs; simpl; [now eexists|].
    assert (Hh : In h after) by (apply sort_desc_In; rewrite Hs; now left).
    rewrite (proj1 (Forall_forall _ _) Hafter h Hh). now eexists.
  - destruct IH as [rest ->]. simpl. rewrite Ha. now eexists.
Qed.

Lemma recorded_scores_ordered (RT : Runtime) function fixed i r b s st st1 :
  run_solver s (fun x => func_to_optimize function fixed x i r b) (cleared st)
  = Returns tt st1 ->
  (forall res v, In res (results_of_single_param_optimization st1) ->
                 result_value res = PFloat v -> is_nan v = false) ->
  Forall ordered_score (results_of_single_param_optimization st1).
Proof.
  intros Hrun Hnum.
  apply run_solver_grows in Hrun as (_ & rs & es & Hrs & _ & _ & _ & Hall).
  simpl in Hrs. rewrite Hrs in *.
  apply Forall_forall. intros res Hres.
  destruct (proj1 (Forall_forall _ _) Hall res Hres)
    as [(_ & _ & _ & v & Hv) _].
  exists v. split; [exact Hv|]. eapply Hnum; eassumption.
Qed.

(** X6. [optimize_one] sorts the shared history in place: when the solver's
    run has recorded at least one result, with scores that are numbers (no
    NaN), the history left is the recorded results rearranged in descending
    order of value, every result standing before the ones it is not below,
    and the sort evaluates nothing and builds no object. *)
Theorem optimize_one_leaves_history_sorted :
  forall (RT : Runtime) function param param_bounds i fixed st st1,
    run_solver (minimize (value param) param_bounds)
               (fun x => func_to_optimize function fixed x i
                                          (ratio param) (is_int param))
               (cleared st)
    = Returns tt st1 ->
    results_of_single_param_optimization st1 <> [] ->
    (forall r v, In r (results_of_single_param_optimization st1) ->
                 result_value r = PFloat v -> is_nan v = false) ->
    exists r st2,
      optimize_one function param param_bounds i fixed st = Returns r st2
      /\ Permutation (results_of_single_param_optimization st2)
                     (results_of_single_param_optimization st1)
      /\ StronglySorted not_below (results_of_single_param_optimization st2)
      /\ evaluations st2 = evaluations st1
      /\ next_ident st2 = next_ident st1.
Proof.
  intros RT function param param_bounds i fixed st st1 Hrun Hne Hnum.
  pose proof (recorded_scores_ordered _ _ _ _ _ _ _ _ _ Hrun Hnum) as Hord.
  rewrite optimize_one_unfold, Hrun, (sort_orders _ Hord).
  destruct (sort_desc (results_of_single_param_optimization st1))
    as [|h t] eqn:Hsort.
  - apply sort_desc_nil in Hsort. contradiction.
  - eexists h, _. split; [reflexivity|]. simpl. rewrite <- Hsort.
    repeat split.
    + apply sort_desc_permutation.
    + now apply sort_desc_strongly_sorted.
Qed.

Lemma optimize_one_leaves_history_sorted_witness :
  exists r st2,
    optimize_one (RT := demo_runtime (solve_at [1; 3; 4]%float))
                 peak_objective shared_param (PInt 0, PInt 5) 0 []
                 (fresh_state 1)
    = Returns r st2
    /\ Permutation (results_of_single_param_optimization st2)
                   (results_of_single_param_optimization peak_recorded)
    /\ StronglySorted not_below (results_of_single_param_optimization st2)
    /\ evaluations st2 = evaluations peak_recorded
    /\ next_ident st2 = next_ident peak_recorded.
Proof.
  apply (optimize_one_leaves_history_sorted
           (demo_runtime (solve_at [1; 3; 4]%float)) peak_objective
           shared_param (PInt 0, PInt 5) 0 [] (fresh_state 1) peak_recorded).
  - reflexivity.
  - discriminate.
  - intros r v [<-|[<-|[<-|[]]]] Hv; injection Hv as <-; reflexivity.
Defined.

(** X7. Ties go to the earlier evaluation: of the recorded results with the
    greatest value, [optimize_one] returns the one recorded first. *)
Theorem optimize_one_returns_first_of_the_best :
  forall (RT : Runtime) function param param_bounds i fixed st st1
         before r after,
    run_solver (minimize (value param) param_bounds)
               (fun x => func_to_optimize function fixed x i
                                          (ratio param) (is_int param))
               (cleared st)
    = Returns tt st1 ->
    results_of_single_param_optimization st1 = before ++ r :: after ->
    (forall res v, In res (results_of_single_param_optimization st1) ->
                   result_value res = PFloat v -> is_nan v = false) ->
    Forall (fun a => py_lt (result_value a) (result_value r) = true) before ->
    Forall (fun b => py_lt (result_value r) (result_value b) = false) after ->
    exists st2,
      optimize_one function param param_bounds i fixed st = Returns r st2.
Proof.
  intros RT function param param_bounds i fixed st st1 before r after
         Hrun Hres Hnum Hbefore Hafter.
  pose proof (recorded_scores_ordered _ _ _ _ _ _ _ _ _ Hrun Hnum) as Hord.
  rewrite optimize_one_unfold, Hrun, (sort_orders _ Hord), Hres.
  destruct (sort_desc_first_greatest before r after Hbefore Hafter)
    as [rest ->].
  now eexists.
Qed.

Lemma optimize_one_returns_first_of_the_best_witness :
  exists st2,
    optimize_one (RT := demo_runtime (solve_at [1; 3; 4]%float))
                 tie_objective shared_param (PInt 0, PInt 5) 0 []
                 (fresh_state 1)
    = Returns (peak_result 30 2 3) st2.
Proof.
  apply (optimize_one_returns_first_of_the_best
           (demo_runtime (solve_at [1; 3; 4]%float)) tie_objective
           shared_param (PInt 0, PInt 5) 0 [] (fresh_state 1) tie_recorded
           [peak_result 10 1 1] (peak_result 30 2 3) [peak_result 30 3 4]).
  - reflexivity.
  - reflexivity.
  - intros r v [<-|[<-|[<-|[]]]] Hv; injection Hv as <-; reflexivity.
  - repeat constructor.
  - repeat constructor.
Defined.

(** ** The shared history between calls *)

(** X8. What an earlier search or run left in the shared history has no
    influence: [optimize_one], and [optimize_all] when the lengths agree, do
    the same whatever the history they are called with. *)
Theorem stale_history_is_ignored :
  forall (RT : Runtime) function st history,
    (forall param param_bounds i fixed,
        optimize_one function param param_bounds i fixed
                     (with_history st history)
        = optimize_one function param param_bounds i fixed st)
    /\ (forall fuel params bounds,
           List.length params = List.length bounds ->
           optimize_all fuel function params bounds (with_history st history)
           = optimize_all fuel function params bounds st).
Proof.
  intros RT function st history. split.
  - intros param param_bounds i fixed. now rewrite !optimize_one_unfold.
  - intros fuel params bounds Hlen.
    now rewrite !optimize_all_equal_lengths by assumption.
Qed.

(** ** [optimize_all] on no parameter *)

(** X9. With no parameter and no bound there is no dimension to search:
    [optimize_all] clears the history and returns
    [Result(value=0, settings=())] after its first pass, without one call to
    the objective or to the solver. *)
Theorem optimize_all_without_parameters :
  forall (RT : Runtime) fuel function st,
    optimize_all (S fuel) function [] [] st
    = Some (Returns {| result_value := PInt 0; settings := [] |} (cleared st)).
Proof. reflexivity. Qed.

(** ** When [optimize_all] returns, and what *)

Lemma sweeps_on_ends (RT : Runtime) function params bounds n c c' :
  sweeps_on function params bounds n c c' ->
  (n = O /\ c' = c) \/ (n <> O /\ fst (fst c') = snd (fst c')).
Proof.
  induction 1 as [c|n best previous st best' st' diff c Hsweep Hsub Hlt Hon IH].
  - now left.
  - right. split; [discriminate|].
    destruct IH as [[_ ->]|[_ IH]]; [reflexivity|exact IH].
Qed.

Lemma while_true_returns_inv (RT : Runtime) function params bounds r st' :
  forall fuel best previous st,
    while_true fuel function params bounds best previous st
    = Some (Returns r st') ->
    exists n last st1 best' diff,
      (n < fuel)%nat
      /\ sweeps_on function params bounds n (best, previous, st) (last, r, st1)
      /\ sweep function params bounds last st1 = Returns best' st'
      /\ py_sub (result_value best') (result_value r) = inr diff
      /\ py_lt diff (PInt MIN_DIFF_BETWEEN_ITERATIONS) = true.
Proof.
  induction fuel as [|fuel IH]; simpl; intros best previous st H;
    [discriminate|].
  destruct (sweep function params bounds best st) as [best1 st1|e st1] eqn:Hsw;
    [|discriminate].
  destruct (py_sub _ _) as [e|diff] eqn:Hsub; [discriminate|].
  destruct (py_lt diff _) eqn:Hlt.
  - injection H as <- <-.
    exists O, best, st, best1, diff.
    repeat split; try assumption; [lia|apply sweeps_none].
  - apply IH in H as (n & last & st2 & best' & diff' & Hn & Hon & Hrest).
    exists (S n), last, st2, best', diff'.
    split; [lia|]. split; [|exact Hrest].
    eapply sweeps_more; eassumption.
Qed.

(** X10. [optimize_all] returns only on convergence: whenever it returns
    [r], the lengths agree and, after some sweeps that went on, fewer than
    the sweeps allowed, a sweep was completed whose best value exceeded that
    of [r] by less than [30], [r] being the result the loop held from before.
    So [r] is the sentinel, when that was the first sweep, or else the
    result an earlier sweep ended with. *)
Theorem optimize_all_returns_only_on_convergence :
  forall (RT : Runtime) fuel function params bounds st r st',
    optimize_all fuel function params bounds st = Some (Returns r st') ->
    List.length params = List.length bounds
    /\ exists n last st1 best_result' diff,
         (n < fuel)%nat
         /\ sweeps_on function params bounds n
                      (sentinel params, sentinel params, cleared st)
                      (last, r, st1)
         /\ sweep function params bounds last st1 = Returns best_result' st'
         /\ py_sub (result_value best_result') (result_value r) = inr diff
         /\ py_lt diff (PInt MIN_DIFF_BETWEEN_ITERATIONS) = true
         /\ ((n = O /\ r = sentinel params) \/ (n <> O /\ last = r)).
Proof.
  intros RT fuel function params bounds st r st' H.
  destruct (Nat.eq_dec (List.length params) (List.length bounds))
    as [Hlen|Hlen].
  - split; [exact Hlen|].
    rewrite optimize_all_equal_lengths in H by assumption.
    apply while_true_returns_inv in H
      as (n & last & st1 & best' & diff & Hn & Hon & Hsw & Hsub & Hlt).
    exists n, last, st1, best', diff. repeat split; try assumption.
    destruct (sweeps_on_ends _ _ _ _ _ _ _ Hon) as [[-> Hc]|[Hn0 Hc]].
    + left. split; [reflexivity|]. now injection Hc as _ -> _.
    + right. split; [exact Hn0|exact Hc].
  - unfold optimize_all in H. apply Nat.eqb_neq in Hlen.
    rewrite Hlen in H. discriminate H.
Qed.

Lemma optimize_all_returns_only_on_convergence_witness :
  List.length two_params = List.length two_bounds
  /\ exists n last st1 best_result' diff,
       (n < 2)%nat
       /\ sweeps_on (RT := demo_runtime (solve_at [1.5%float])) (echo_with 40)
                    two_params two_bounds n
                    (sentinel two_params, sentinel two_params,
                     cleared (fresh_state 2))
                    (last, {| result_value := PFloat 40;
                              settings := two_settings 4 |}, st1)
       /\ sweep (RT := demo_runtime (solve_at [1.5%float])) (echo_with 40)
                two_params two_bounds last st1
          = Returns best_result'
                    {| results_of_single_param_optimization :=
                         [ {| result_value := PFloat 40;
                              settings := two_settings 8 |} ];
                       next_ident := 10;
                       evaluations :=
                         [ [Num (PFloat 1.5); Str "2k"];
                           [Num (PFloat 1.5); Str "1.5k"];
                           [Num (PFloat 1.5); Str "1.5k"];
                           [Num (PFloat 1.5); Str "1.5k"] ] |}
       /\ py_sub (result_value best_result') (PFloat 40) = inr diff
       /\ py_lt diff (PInt MIN_DIFF_BETWEEN_ITERATIONS) = true
       /\ ((n = O /\ {| result_value := PFloat 40; settings := two_settings 4 |}
                     = sentinel two_params)
           \/ (n <> O /\ last = {| result_value := PFloat 40;
                                   settings := two_settings 4 |})).
Proof.
  apply (optimize_all_returns_only_on_convergence
           (demo_runtime (solve_at [1.5%float])) 2 (echo_with 40)
           two_params two_bounds (fresh_state 2)).
  vm_compute. reflexivity.
Defined.

(** ** The exceptions of [optimize_all] *)

Lemma bind_no_length_exception {A B} (c : M A) (k : A -> M B) st :
  no_length_exception (c st) ->
  (forall a st1, c st = Returns a st1 -> no_length_exception (k a st1)) ->
  no_length_exception (bind c k st).
Proof.
  unfold bind. destruct (c st) as [a st1|e st1]; intros Hc Hk.
  - now apply Hk.
  - exact Hc.
Qed.

Lemma encode_no_length_exception (RT : Runtime) v r b e :
  encode v r b = inl e -> e = ValueError \/ e = OverflowError.
Proof.
  unfold encode. destruct r; [discriminate|]. destruct b.
  - destruct v as [n|x]; simpl; [discriminate|].
    unfold int_of_float.
    destruct (Prim2SF x); intros H; try discriminate; injection H as <-; auto.
  - destruct v as [n|x]; simpl; [|discriminate].
    unfold float_of_int. destruct (is_infinity _); [|discriminate].
    intros H. injection H as <-. auto.
Qed.

Lemma gather_no_length_exception (RT : Runtime) x i r b fixed e :
  _gather_params_to_pass x i r b fixed = inl e ->
  e = ValueError \/ e = OverflowError.
Proof.
  unfold _gather_params_to_pass.
  assert (Hfixed : forall e', encode_fixed fixed = inl e' ->
                              e' = ValueError \/ e' = OverflowError).
  { induction fixed as [|p fixed IH]; simpl; intros e' H; [discriminate|].
    destruct (encode _ _ _) as [e1|v] eqn:Hp.
    - injection H as <-. eapply encode_no_length_exception; eassumption.
    - destruct (encode_fixed fixed) as [e2|vs]; [|discriminate].
      injection H as <-. now apply IH. }
  destruct (encode_fixed fixed) as [e1|vs].
  - intros H. injection H as <-. now apply Hfixed.
  - destruct (encode _ _ _) as [e2|v] eqn:Hx; [|discriminate].
    intros H. injection H as <-. eapply encode_no_length_exception; eassumption.
Qed.

Lemma decode_all_no_length_exception (RT : Runtime) echoed :
  forall st, no_length_exception (decode_all echoed st).
Proof.
  induction echoed as [|v echoed IH]; simpl; intros st; [exact I|].
  apply bind_no_length_exception.
  - unfold decode. destruct v as [n|s]; [exact I|].
    destruct (float_of_str _); exact I.
  - intros p st1 _. apply bind_no_length_exception; [apply IH|].
    intros; exact I.
Qed.

Lemma func_to_optimize_no_length_exception (RT : Runtime) function fixed
      x i r b st :
  no_length_exception (func_to_optimize function fixed x i r b st).
Proof.
  unfold func_to_optimize. apply bind_no_length_exception.
  - destruct (_gather_params_to_pass x i r b fixed) as [e|args] eqn:Hg;
      [|exact I].
    destruct (gather_no_length_exception _ _ _ _ _ _ _ Hg) as [-> | ->];
      exact I.
  - intros args st1 _. apply bind_no_length_exception; [exact I|].
    intros answer st2 _. apply bind_no_length_exception;
      [apply decode_all_no_length_exception|].
    intros ps st3 _. apply bind_no_length_exception; [exact I|].
    intros; exact I.
Qed.

Lemma optimize_one_no_length_exception (RT : Runtime) function param
      param_bounds i fixed st :
  no_length_exception (optimize_one function param param_bounds i fixed st).
Proof.
  rewrite optimize_one_unfold.
  generalize (cleared st) as st0.
  induction (minimize (value param) param_bounds) as [|x k IH|e];
    simpl; intros st0.
  - destruct (sort_by_value_reversed _); exact I.
  - unfold bind at 1.
    pose proof (func_to_optimize_no_length_exception RT function fixed x i
                  (ratio param) (is_int param) st0) as Hf.
    destruct (func_to_optimize _ _ _ _ _ _ st0) as [y st1|e st1].
    + apply IH.
    + exact Hf.
  - destruct e; exact I.
Qed.

Lemma for_each_param_no_length_exception (RT : Runtime) function bounds
      indices :
  forall best st,
    no_length_exception (for_each_param function bounds indices best st).
Proof.
  induction indices as [|i indices IH]; simpl; intros best st; [exact I|].
  apply bind_no_length_exception.
  - unfold subscript. destruct (nth_error _ _); exact I.
  - intros current st1 _. apply bind_no_length_exception.
    + unfold subscript. destruct (nth_error _ _); exact I.
    + intros pb st2 _. apply bind_no_length_exception.
      * apply optimize_one_no_length_exception.
      * intros best1 st3 _. apply IH.
Qed.

Lemma py_sub_no_length_exception a b e :
  py_sub a b = inl e -> e = OverflowError.
Proof.
  assert (Hf : forall v e', py_float v = inl e' -> e' = OverflowError).
  { intros [n|x] e'; simpl; [|discriminate].
    unfold float_of_int. destruct (is_infinity _); [|discriminate].
    now intros H; injection H as <-. }
  unfold py_sub.
  destruct a as [m|x], b as [n|y]; try discriminate;
    destruct (py_float _) as [e1|u] eqn:H1;
    try destruct (py_float (PInt n)) as [e2|w] eqn:H2;
    try destruct (py_float (PFloat y)) as [e2|w] eqn:H2;
    intros H; try discriminate; injection H as <-; eauto.
Qed.

Lemma while_true_no_length_exception (RT : Runtime) function params bounds :
  forall fuel best previous st st',
    while_true fuel function params bounds best previous st
    <> Some (Raises DifferentListLengthException st').
Proof.
  induction fuel as [|fuel IH]; simpl; intros best previous st st';
    [discriminate|].
  pose proof (for_each_param_no_length_exception RT function bounds
                (seq 0 (List.length params)) best st) as Hsw.
  unfold sweep.
  destruct (for_each_param _ _ _ _ _) as [best1 st1|e st1].
  - destruct (py_sub _ _) as [e|diff] eqn:Hsub.
    + apply py_sub_no_length_exception in Hsub. subst e. discriminate.
    + destruct (py_lt diff _); [discriminate|apply IH].
  - intros H. injection H as -> _. exact Hsw.
Qed.

(** X11. [DifferentListLengthException] means a length mismatch and nothing
    else: [optimize_all] raises it exactly when [params] and [bounds] differ
    in length, and then in the store it was called in. No search, sweep or
    objective answer makes it raise that exception. *)
Theorem length_exception_iff_length_mismatch :
  forall (RT : Runtime) fuel function params bounds st st',
    optimize_all fuel function params bounds st
    = Some (Raises DifferentListLengthException st')
    <-> List.length params <> List.length bounds /\ st' = st.
Proof.
  intros RT fuel function params bounds st st'. split.
  - intros H.
    destruct (Nat.eq_dec (List.length params) (List.length bounds))
      as [Hlen|Hlen].
    + rewrite optimize_all_equal_lengths in H by assumption.
      now apply while_true_no_length_exception in H.
    + split; [exact Hlen|].
      unfold optimize_all in H. apply Nat.eqb_neq in Hlen.
      rewrite Hlen in H. simpl in H. now injection H as <-.
  - intros [Hlen ->]. unfold optimize_all.
    apply Nat.eqb_neq in Hlen. now rewrite Hlen.
Qed.

(** ** Runs in which only the solver can fail *)












(** A solver that refuses its bounds ends the run at the first search, with
    its [ValueError] and nothing evaluated. *)
Example refused_bounds_end_the_run :
  optimize_all (RT := demo_runtime solve_refusing) 3 (echo_with 1)
               demo_params [(PInt 2, PInt 0)] (fresh_state 1)
  = Some (Raises ValueError (cleared (fresh_state 1))).
Proof. vm_compute. reflexivity. Qed.



(** ** A score that is not a number *)

Lemma for_each_param_last (RT : Runtime) function bounds indices :
  indices <> [] ->
  forall best st best' st',
    for_each_param function bounds indices best st = Returns best' st' ->
    exists fixed, recorded_by function fixed best'.
Proof.
  induction indices as [|i indices IH]; [congruence|].
  intros _ best st best' st' H. simpl in H.
  apply bind_inv in H as (current & st0 & _ & H).
  apply bind_inv in H as (pb & st1 & _ & H).
  apply bind_inv in H as (best1 & st2 & Hone & H).
  destruct indices as [|j indices].
  - simpl in H. injection H as <- _.
    apply optimize_one_recorded in Hone as [Hrec _].
    eexists. exact Hrec.
  - eapply IH; [discriminate|eassumption].
Qed.

Lemma nan_minus_is_not_below (x : float) (b : pynum) (diff : pynum) :
  is_nan x = true ->
  py_sub (PFloat x) b = inr diff ->
  py_lt diff (PInt MIN_DIFF_BETWEEN_ITERATIONS) = false.
Proof.
  intros Hx.
  assert (Hsub : forall y,
             py_lt (PFloat (x - y)%float) (PInt MIN_DIFF_BETWEEN_ITERATIONS)
             = false).
  { intros y. simpl. unfold float_lt_int.
    rewrite sub_spec, (Prim2SF_nan x Hx). reflexivity. }
  unfold py_sub. simpl.
  destruct b as [n|y]; simpl.
  - destruct (float_of_int n) as [e|y]; [discriminate|].
    intros H. injection H as <-. apply Hsub.
  - intros H. injection H as <-. apply Hsub.
Qed.

Lemma while_true_never_returns (RT : Runtime) function params bounds :
  params <> [] ->
  (forall args, is_nan (fst (function args)) = true) ->
  forall fuel best previous st r st',
    while_true fuel function params bounds best previous st
    <> Some (Returns r st').
Proof.
  intros Hparams Hnan.
  induction fuel as [|fuel IH]; simpl; intros best previous st r st';
    [discriminate|].
  destruct (sweep function params bounds best st) as [best1 st1|e st1] eqn:Hsw;
    [|discriminate].
  unfold sweep in Hsw.
  apply for_each_param_last in Hsw as [fixed (args & _ & Hv & _)].
  2:{ destruct params; [congruence|discriminate]. }
  rewrite Hv.
  destruct (py_sub _ _) as [e|diff] eqn:Hsub; [discriminate|].
  rewrite (nan_minus_is_not_below _ _ _ (Hnan args) Hsub).
  apply IH.
Qed.

(** X13. An objective whose every score is NaN keeps [optimize_all] from
    ever returning, whatever the solver: with at least one parameter, each
    completed sweep ends on a NaN value, the difference to the previous
    value is NaN and is not below [30], and the loop goes on. The run fails
    or sweeps for ever. *)
Theorem nan_scores_never_converge :
  forall (RT : Runtime) fuel function params bounds st,
    params <> [] ->
    (forall args, is_nan (fst (function args)) = true) ->
    optimize_all fuel function params bounds st = None
    \/ exists e st',
         optimize_all fuel function params bounds st = Some (Raises e st').
Proof.
  intros RT fuel function params bounds st Hparams Hnan.
  destruct (optimize_all fuel function params bounds st)
    as [[r st'|e st']|] eqn:Hrun.
  - exfalso. revert Hrun. unfold optimize_all.
    destruct (negb _); [discriminate|]. simpl.
    now apply while_true_never_returns.
  - right. now exists e, st'.
  - now left.
Qed.

Lemma nan_scores_never_converge_witness :
  optimize_all (RT := demo_runtime (solve_at [1.5%float])) 5 nan_objective
               two_params two_bounds (fresh_state 2) = None
  \/ exists e st',
       optimize_all (RT := demo_runtime (solve_at [1.5%float])) 5
                    nan_objective two_params two_bounds (fresh_state 2)
       = Some (Raises e st').
Proof.
  apply (nan_scores_never_converge (demo_runtime (solve_at [1.5%float])) 5
           nan_objective two_params two_bounds (fresh_state 2)).
  - discriminate.
  - intros args. reflexivity.
Defined.

Example nan_scores_keep_sweeping :
  optimize_all (RT := demo_runtime (solve_at [1.5%float])) 5 nan_objective
               two_params two_bounds (fresh_state 2) = None.
Proof. vm_compute. reflexivity. Qed.

(** ** What the objective is given *)

Lemma evaluated_with_refl n st : evaluated_with n st st.
Proof. exists []. now rewrite app_nil_r. Qed.

Lemma evaluated_with_trans n st st1 st2 :
  evaluated_with n st st1 -> evaluated_with n st1 st2 ->
  evaluated_with n st st2.
Proof.
  intros (es1 & He1 & Hall1) (es2 & He2 & Hall2).
  exists (es1 ++ es2). split.
  - now rewrite He2, He1, app_assoc.
  - apply Forall_app. now split.
Qed.

Lemma decode_all_final_evaluations (RT : Runtime) echoed :
  forall st,
    evaluations (final_state (decode_all echoed st)) = evaluations st.
Proof.
  induction echoed as [|v echoed IH]; simpl; intros st; [reflexivity|].
  unfold bind at 1.
  destruct (decode v st) as [p st1|e st1] eqn:Hdec.
  - apply decode_allocates in Hdec as [_ ->].
    unfold bind. specialize (IH (allocated st)).
    destruct (decode_all echoed (allocated st)); exact IH.
  - unfold decode in Hdec. destruct v as [n|s]; [discriminate|].
    destruct (float_of_str _); [discriminate|].
    unfold raise in Hdec. now injection Hdec as _ <-.
Qed.

Lemma func_to_optimize_final (RT : Runtime) function fixed x i r b st :
  evaluated_with (S (List.length fixed)) st
                 (final_state (func_to_optimize function fixed x i r b st)).
Proof.
  unfold func_to_optimize.
  destruct (_gather_params_to_pass x i r b fixed) as [e|args] eqn:Hg.
  - apply evaluated_with_refl.
  - simpl. unfold bind at 1. simpl. unfold bind at 1. unfold call at 1.
    unfold bind at 1.
    pose proof (decode_all_final_evaluations RT (snd (function args))
                  (logged st args)) as Hev.
    exists [args]. split.
    + destruct (decode_all _ _) as [ps st1|e st1]; simpl in *; exact Hev.
    + constructor; [|constructor]. eapply gather_length; eassumption.
Qed.

Lemma run_solver_final (RT : Runtime) function fixed i r b s :
  forall st,
    evaluated_with (S (List.length fixed)) st
      (final_state
         (run_solver s (fun x => func_to_optimize function fixed x i r b) st)).
Proof.
  induction s as [|x k IH|e]; simpl; intros st;
    [apply evaluated_with_refl| |apply evaluated_with_refl].
  unfold bind.
  pose proof (func_to_optimize_final RT function fixed x i r b st) as Hf.
  destruct (func_to_optimize _ _ _ _ _ _ st) as [y st1|e st1]; simpl in Hf.
  - eapply evaluated_with_trans; [exact Hf|apply IH].
  - exact Hf.
Qed.

Lemma optimize_one_final (RT : Runtime) function param param_bounds i fixed
      st :
  evaluated_with (S (List.length fixed)) st
    (final_state (optimize_one function param param_bounds i fixed st)).
Proof.
  rewrite optimize_one_unfold.
  pose proof (run_solver_final RT function fixed i (ratio param)
                (is_int param) (minimize (value param) param_bounds)
                (cleared st)) as Hrun.
  destruct (run_solver _ _ _) as [[] st1|e st1]; simpl in Hrun.
  - destruct (sort_by_value_reversed _); exact Hrun.
  - exact Hrun.
Qed.

Lemma for_each_param_final (RT : Runtime) function bounds n :
  (forall args, List.length (snd (function args)) = List.length args) ->
  forall m k best st,
    List.length (settings best) = n ->
    NoDup (map ident (settings best)) ->
    match for_each_param function bounds (seq k m) best st with
    | Returns best' st' =>
        evaluated_with n st st'
        /\ List.length (settings best') = n
        /\ NoDup (map ident (settings best'))
    | Raises _ st' => evaluated_with n st st'
    end.
Proof.
  intros Hecho.
  induction m as [|m IH]; simpl; intros k best st Hlen Hnd.
  - split; [apply evaluated_with_refl|now split].
  - unfold bind at 1. unfold subscript at 1.
    destruct (nth_error (settings best) k) as [current|] eqn:Hcur; simpl;
      [|apply evaluated_with_refl].
    unfold bind at 1. unfold subscript at 1.
    destruct (nth_error bounds k) as [pb|]; simpl;
      [|apply evaluated_with_refl].
    unfold bind at 1.
    assert (Hk : (k < List.length (settings best))%nat)
      by (apply nth_error_Some; congruence).
    rewrite (fixed_params_by_position best k current Hnd Hcur).
    pose proof (optimize_one_final RT function current pb k
                  (remove_at k (settings best)) st) as Hone.
    rewrite remove_at_length, Hlen in Hone by assumption.
    destruct (optimize_one function current pb k _ st)
      as [best1 st1|e st1] eqn:Hrun; simpl in Hone; [|exact Hone].
    apply optimize_one_shape in Hrun as [Hlen1 Hnd1]; [|assumption].
    rewrite remove_at_length in Hlen1 by assumption.
    specialize (IH (S k) best1 st1 ltac:(congruence) Hnd1).
    destruct (for_each_param function bounds (seq (S k) m) best1 st1)
      as [best2 st2|e st2].
    + destruct IH as (Hev & Hret). split; [|exact Hret].
      eapply evaluated_with_trans; eassumption.
    + eapply evaluated_with_trans; eassumption.
Qed.

Lemma while_true_final (RT : Runtime) function params bounds :
  (forall args, List.length (snd (function args)) = List.length args) ->
  forall fuel best previous st o,
    List.length (settings best) = List.length params ->
    NoDup (map ident (settings best)) ->
    while_true fuel function params bounds best previous st = Some o ->
    evaluated_with (List.length params) st (final_state o).
Proof.
  intros Hecho.
  induction fuel as [|fuel IH]; simpl; intros best previous st o Hlen Hnd H;
    [discriminate|].
  unfold sweep in H.
  pose proof (for_each_param_final RT function bounds (List.length params)
                Hecho (List.length params) 0 best st Hlen Hnd) as Hev.
  destruct (for_each_param _ _ _ _ _) as [best1 st1|e st1].
  - destruct Hev as (Hev & Hlen1 & Hnd1).
    destruct (py_sub _ _) as [e|diff].
    + injection H as <-. exact Hev.
    + destruct (py_lt diff _).
      * injection H as <-. exact Hev.
      * eapply evaluated_with_trans; [exact Hev|].
        eapply IH; eassumption.
  - injection H as <-. exact Hev.
Qed.

(** X14. The objective is always given a full tuple. When the caller's
    parameters are distinct objects and the objective echoes as many settings
    as it is given values, every call [optimize_all] makes to the objective,
    up to the point where it returns or raises, passes exactly
    [len(params)] values; and the calls made before the run stay in the log
    as they were. *)
Theorem objective_is_given_every_dimension :
  forall (RT : Runtime) fuel function params bounds st o,
    NoDup (map ident params) ->
    (forall args, List.length (snd (function args)) = List.length args) ->
    optimize_all fuel function params bounds st = Some o ->
    exists es,
      evaluations (final_state o) = evaluations st ++ es
      /\ Forall (fun e => List.length e = List.length params) es.
Proof.
  intros RT fuel function params bounds st o Hnd Hecho H.
  unfold optimize_all in H.
  destruct (negb _).
  - injection H as <-. apply evaluated_with_refl.
  - simpl in H.
    apply while_true_final in H; try assumption; reflexivity.
Qed.

Lemma objective_is_given_every_dimension_witness :
  exists es,
    evaluations
      (final_state
         (Returns
            {| result_value := PFloat 40; settings := two_settings 4 |}
            {| results_of_single_param_optimization :=
                 [ {| result_value := PFloat 40; settings := two_settings 8 |} ];
               next_ident := 10;
               evaluations :=
                 [ [Num (PFloat 1.5); Str "2k"]; [Num (PFloat 1.5); Str "1.5k"];
                   [Num (PFloat 1.5); Str "1.5k"];
                   [Num (PFloat 1.5); Str "1.5k"] ] |}))
    = evaluations (fresh_state 2) ++ es
    /\ Forall (fun e => List.length e = List.length two_params) es.
Proof.
  apply (objective_is_given_every_dimension
           (demo_runtime (solve_at [1.5%float])) 2 (echo_with 40)
           two_params two_bounds (fresh_state 2)).
  - repeat constructor; simpl; intuition discriminate.
  - intros args. reflexivity.
  - vm_compute. reflexivity.
Defined.

(** ** What [optimize_all] returns is the caller's or new *)

Lemma built_since_earlier st0 st r :
  (next_ident st0 <= next_ident st)%nat ->
  built_since st r -> built_since st0 r.
Proof.
  intros Hle (Hnd & Hwm & Hfr & Hsc). repeat split; try assumption.
  eapply Forall_impl; [|exact Hfr]. simpl. intros p Hp. lia.
Qed.

Lemma for_each_param_built (RT : Runtime) function bounds indices :
  forall best st best' st',
    for_each_param function bounds indices best st = Returns best' st' ->
    (next_ident st <= next_ident st')%nat
    /\ (best' = best \/ built_since st best').
Proof.
  induction indices as [|i indices IH]; simpl; intros best st best' st' H.
  - injection H as <- <-. split; [lia|now left].
  - apply bind_inv in H as (current & st0 & Hcur & H).
    apply nth_error_subscript in Hcur as [_ ->].
    apply bind_inv in H as (pb & st0 & Hpb & H).
    apply nth_error_subscript in Hpb as [_ ->].
    apply bind_inv in H as (best1 & st1 & Hone & H).
    apply optimize_one_built in Hone as (Hb1 & _ & Hle1).
    apply IH in H as [Hle [-> | Hb]].
    + split; [lia|]. now right.
    + split; [lia|]. right. eapply built_since_earlier; eassumption.
Qed.

Lemma while_true_built (RT : Runtime) function params bounds st0 r st' :
  forall fuel best previous st,
    (next_ident st0 <= next_ident st)%nat ->
    best = sentinel params \/ built_since st0 best ->
    previous = sentinel params \/ built_since st0 previous ->
    while_true fuel function params bounds best previous st
    = Some (Returns r st') ->
    r = sentinel params \/ built_since st0 r.
Proof.
  induction fuel as [|fuel IH]; simpl; intros best previous st Hle Hb Hp H;
    [discriminate|].
  destruct (sweep function params bounds best st) as [best1 st1|e st1] eqn:Hsw;
    [|discriminate].
  apply for_each_param_built in Hsw as [Hle1 Hb1].
  assert (Hb1' : best1 = sentinel params \/ built_since st0 best1).
  { destruct Hb1 as [-> | Hb1]; [exact Hb|].
    right. eapply built_since_earlier; eassumption. }
  destruct (py_sub _ _) as [e|diff]; [discriminate|].
  destruct (py_lt diff _).
  - injection H as <- _. exact Hp.
  - eapply IH; [| | |exact H]; [lia|assumption..].
Qed.

(** X15. What [optimize_all] returns is either the sentinel, value [0] on
    the caller's own parameter objects, or a result made of new objects
    only: its settings are pairwise distinct, none of them is an object that
    existed when the run began, their flags agree with their values, and its
    value is the float score of an evaluation. *)
Theorem optimize_all_returns_sentinel_or_new_objects :
  forall (RT : Runtime) fuel function params bounds st r st',
    optimize_all fuel function params bounds st = Some (Returns r st') ->
    r = {| result_value := PInt 0; settings := params |}
    \/ (NoDup (map ident (settings r))
        /\ Forall (fun p => (next_ident st <= ident p)%nat) (settings r)
        /\ Forall well_moded (settings r)
        /\ exists v, result_value r = PFloat v).
Proof.
  intros RT fuel function params bounds st r st' H.
  unfold optimize_all in H. destruct (negb _); [discriminate|]. simpl in H.
  apply (while_true_built RT function params bounds st) in H.
  - destruct H as [-> | (Hnd & Hwm & Hfr & Hsc)]; [now left|].
    right. repeat split; assumption.
  - simpl. lia.
  - now left.
  - now left.
Qed.

Lemma optimize_all_returns_sentinel_or_new_objects_witness :
  {| result_value := PFloat 40; settings := two_settings 4 |}
  = {| result_value := PInt 0; settings := two_params |}
  \/ (NoDup (map ident (two_settings 4))
      /\ Forall (fun p => (next_ident (fresh_state 2) <= ident p)%nat)
                (two_settings 4)
      /\ Forall well_moded (two_settings 4)
      /\ exists v, PFloat 40 = PFloat v).
Proof.
  apply (optimize_all_returns_sentinel_or_new_objects
           (demo_runtime (solve_at [1.5%float])) 2 (echo_with 40)
           two_params two_bounds (fresh_state 2)
           {| result_value := PFloat 40; settings := two_settings 4 |}
           {| results_of_single_param_optimization :=
                [ {| result_value := PFloat 40; settings := two_settings 8 |} ];
              next_ident := 10;
              evaluations :=
                [ [Num (PFloat 1.5); Str "2k"]; [Num (PFloat 1.5); Str "1.5k"];
                  [Num (PFloat 1.5); Str "1.5k"];
                  [Num (PFloat 1.5); Str "1.5k"] ] |}).
  vm_compute. reflexivity.
Defined.

(** ** No result without evaluations *)

Lemma for_each_param_evaluates (RT : Runtime) function bounds indices :
  forall best st best' st',
    for_each_param function bounds indices best st = Returns best' st' ->
    exists es,
      evaluations st' = evaluations st ++ es
      /\ (List.length indices <= List.length es)%nat.
Proof.
  induction indices as [|i indices IH]; simpl; intros best st best' st' H.
  - injection H as _ <-. exists []. rewrite app_nil_r. split; [reflexivity|lia].
  - apply bind_inv in H as (current & st0 & Hcur & H).
    apply nth_error_subscript in Hcur as [_ ->].
    apply bind_inv in H as (pb & st0 & Hpb & H).
    apply nth_error_subscript in Hpb as [_ ->].
    apply bind_inv in H as (best1 & st1 & Hone & H).
    apply optimize_one_returns_inv in Hone
      as (st2 & rest & Hrun & Hsort & _ & _ & Hev).
    apply run_solver_grows in Hrun
      as (_ & rs & es1 & Hrs & Hes1 & Hlen & _).
    simpl in Hrs, Hes1.
    apply IH in H as (es2 & Hes2 & Hlen2).
    exists (es1 ++ es2). split.
    + now rewrite Hes2, Hev, Hes1, app_assoc.
    + rewrite length_app, <- Hlen.
      destruct rs as [|r0 rs]; [|simpl; lia].
      rewrite Hrs, sorted_of_nil in Hsort. discriminate Hsort.
Qed.

Lemma while_true_evaluates (RT : Runtime) function params bounds r st' :
  forall fuel best previous st,
    while_true fuel function params bounds best previous st
    = Some (Returns r st') ->
    exists es,
      evaluations st' = evaluations st ++ es
      /\ (List.length params <= List.length es)%nat.
Proof.
  induction fuel as [|fuel IH]; simpl; intros best previous st H;
    [discriminate|].
  destruct (sweep function params bounds best st) as [best1 st1|e st1] eqn:Hsw;
    [|discriminate].
  apply for_each_param_evaluates in Hsw as (es1 & Hes1 & Hlen1).
  rewrite length_seq in Hlen1.
  destruct (py_sub _ _) as [e|diff]; [discriminate|].
  destruct (py_lt diff _).
  - injection H as _ <-. now exists es1.
  - apply IH in H as (es2 & Hes2 & _).
    exists (es1 ++ es2). split.
    + now rewrite Hes2, Hes1, app_assoc.
    + rewrite length_app. lia.
Qed.

(** X16. [optimize_all] returns nothing it has not paid for: before it
    returns, the sentinel included, it has called the objective at least
    once for every parameter, the calls being added to those made before the
    run. *)
Theorem optimize_all_evaluates_every_dimension :
  forall (RT : Runtime) fuel function params bounds st r st',
    optimize_all fuel function params bounds st = Some (Returns r st') ->
    exists es,
      evaluations st' = evaluations st ++ es
      /\ (List.length params <= List.length es)%nat.
Proof.
  intros RT fuel function params bounds st r st' H.
  unfold optimize_all in H. destruct (negb _); [discriminate|]. simpl in H.
  now apply while_true_evaluates in H.
Qed.

Lemma optimize_all_evaluates_every_dimension_witness :
  exists es,
    [ [Num (PFloat 1.5); Str "2k"]; [Num (PFloat 1.5); Str "1.5k"] ]
    = evaluations (fresh_state 2) ++ es
    /\ (List.length two_params <= List.length es)%nat.
Proof.
  apply (optimize_all_evaluates_every_dimension
           (demo_runtime (solve_at [1.5%float])) 1 (echo_with 29.5)
           two_params two_bounds (fresh_state 2)
           {| result_value := PInt 0; settings := two_params |}
           {| results_of_single_param_optimization :=
                [ {| result_value := PFloat 29.5; settings := two_settings 4 |} ];
              next_ident := 6;
              evaluations :=
                [ [Num (PFloat 1.5); Str "2k"]; [Num (PFloat 1.5); Str "1.5k"] ] |}).
  vm_compute. reflexivity.
Defined.

(** ** The objective of the script *)

Lemma accumulate_readable (RT : Runtime) test_function got_params :
  Forall readable got_params ->
  forall result,
    plain_value result ->
    exists result',
      step_optimization.accumulate test_function got_params result
      = inr result'
      /\ plain_value result'.
Proof.
  induction 1 as [|param rest Hp _ IH]; simpl; intros result Hres.
  - now exists result.
  - assert (Hsc : exists v, step_optimization.scored_param param = inr v).
    { destruct param as [v|s]; simpl; [now eexists|].
      simpl in Hp. destruct (float_of_str _); [now eexists|congruence]. }
    destruct Hsc as [v ->].
    destruct Hres as [->|[x ->]]; simpl; apply IH; right; now eexists.
Qed.

Lemma accumulate_unreadable (RT : Runtime) test_function got_params :
  ~ Forall readable got_params ->
  forall result,
    plain_value result ->
    step_optimization.accumulate test_function got_params result
    = inl ValueError.
Proof.
  induction got_params as [|param rest IH]; simpl; intros Hnot result Hres.
  - exfalso. apply Hnot. constructor.
  - destruct param as [v|s]; simpl.
    + assert (Hrest : ~ Forall readable rest).
      { intros Hr. apply Hnot. constructor; [exact I|exact Hr]. }
      destruct Hres as [->|[x ->]]; simpl; apply IH; try assumption;
        right; now eexists.
    + destruct (float_of_str (drop_last s)) as [y|] eqn:Hy; [|reflexivity].
      assert (Hrest : ~ Forall readable rest).
      { intros Hr. apply Hnot. constructor; [simpl; congruence|exact Hr]. }
      destruct Hres as [->|[x ->]]; simpl; apply IH; try assumption;
        right; now eexists.
Qed.

(** X17. The objective of [step_optimization.py] echoes what it is given or
    fails on it: when every string of [got_params] reads as a float without
    its last character, [function] returns a score together with the very
    tuple it was given, so as many settings as values, each of the kind it
    came in; when some string does not, it raises the [ValueError] of
    [float()]. *)
Theorem script_function_echoes_or_fails :
  forall (RT : Runtime) (test_function : pynum -> float) got_params,
    (Forall readable got_params ->
     exists result,
       step_optimization.function test_function got_params
       = inr (result, got_params))
    /\ (~ Forall readable got_params ->
        step_optimization.function test_function got_params
        = inl ValueError).
Proof.
  intros RT test_function got_params. unfold step_optimization.function.
  split.
  - intros Hall.
    destruct (accumulate_readable RT test_function got_params Hall (PInt 0))
      as (result & -> & _); [now left|].
    now exists result.
  - intros Hnot.
    rewrite (accumulate_unreadable RT test_function got_params Hnot (PInt 0));
      [reflexivity|now left].
Qed.

Lemma script_function_echoes_or_fails_witness :
  (exists result,
     step_optimization.function (RT := demo_runtime solve_nothing)
                                (fun _ => 2%float)
                                [Num (PFloat 1.5); Str "2k"]
     = inr (result, [Num (PFloat 1.5); Str "2k"]))
  /\ step_optimization.function (RT := demo_runtime solve_nothing)
                                (fun _ => 2%float)
                                [Num (PFloat 1.5); Str "k"]
     = inl ValueError.
Proof.
  split.
  - apply (proj1 (script_function_echoes_or_fails
                    (demo_runtime solve_nothing) (fun _ => 2%float)
                    [Num (PFloat 1.5); Str "2k"])).
    repeat constructor. simpl. discriminate.
  - apply (proj2 (script_function_echoes_or_fails
                    (demo_runtime solve_nothing) (fun _ => 2%float)
                    [Num (PFloat 1.5); Str "k"])).
    intros H. inversion H as [|? ? _ H2]; subst.
    inversion H2 as [|? ? H3 _]; subst. apply H3. reflexivity.
Defined.

Lemma accumulate_float (RT : Runtime) test_function got_params :
  Forall readable got_params ->
  forall x,
    exists y,
      step_optimization.accumulate test_function got_params (PFloat x)
      = inr (PFloat y).
Proof.
  induction 1 as [|param rest Hp _ IH]; simpl; intros x; [now exists x|].
  destruct param as [v|s]; simpl; [apply IH|].
  simpl in Hp. destruct (float_of_str _); [apply IH|congruence].
Qed.

Lemma encoded_is_readable (RT : Runtime) v r b w :
  (r = true -> float_of_str (str_of_num v) <> None) ->
  encode v r b = inr w -> readable w.
Proof.
  unfold encode. intros Hr. destruct r.
  - intros H. injection H as <-. simpl.
    rewrite drop_last_app_char. now apply Hr.
  - destruct b.
    + destruct (py_int v); [discriminate|]. intros H. now injection H as <-.
    + destruct (py_float v); [discriminate|]. intros H. now injection H as <-.
Qed.

Lemma gathered_is_readable (RT : Runtime) x i r b fixed args :
  Forall (fun p => ratio p = true ->
                   float_of_str (str_of_num (value p)) <> None) fixed ->
  (r = true -> float_of_str (str_of_num (PFloat x)) <> None) ->
  _gather_params_to_pass x i r b fixed = inr args ->
  Forall readable args.
Proof.
  intros Hfixed Hx. unfold _gather_params_to_pass.
  destruct (encode_fixed fixed) as [e|vs] eqn:Hvs; [discriminate|].
  destruct (encode (PFloat x) r b) as [e|v] eqn:Hv; [discriminate|].
  intros H. injection H as <-.
  assert (Hall : Forall readable vs).
  { apply encode_fixed_pointwise in Hvs.
    induction Hvs as [|p w fixed' vs' Hpw _ IH]; [constructor|].
    inversion Hfixed as [|? ? Hp Hrest]; subst.
    constructor; [|now apply IH].
    eapply encoded_is_readable; eassumption. }
  rewrite <- (firstn_skipn i vs) in Hall.
  apply Forall_app in Hall as [Hfirst Hlast].
  unfold py_insert. apply Forall_app. split; [exact Hfirst|].
  constructor; [eapply encoded_is_readable; eassumption|exact Hlast].
Qed.

(** X18. The script's objective fits the optimizer: on every tuple
    [_gather_params_to_pass] builds, the printed ratios being texts that
    read back as floats, [function] raises nothing and returns a float score
    with the tuple itself as settings. *)
Theorem script_function_accepts_gathered :
  forall (RT : Runtime) (test_function : pynum -> float) x i r b fixed args,
    _gather_params_to_pass x i r b fixed = inr args ->
    Forall (fun p => ratio p = true ->
                     float_of_str (str_of_num (value p)) <> None) fixed ->
    (r = true -> float_of_str (str_of_num (PFloat x)) <> None) ->
    exists score,
      step_optimization.function test_function args
      = inr (PFloat score, args).
Proof.
  intros RT test_function x i r b fixed args Hg Hfixed Hx.
  pose proof (gathered_is_readable RT x i r b fixed args Hfixed Hx Hg) as Hall.
  pose proof (gather_length RT x i r b fixed args Hg) as Hlen.
  unfold step_optimization.function.
  destruct Hall as [|param rest Hp Hrest]; [discriminate Hlen|].
  simpl.
  assert (Hsc : exists v, step_optimization.scored_param param = inr v).
  { destruct param as [v|s]; simpl; [now eexists|].
    simpl in Hp.
    destruct (float_of_str (drop_last s)); [now eexists|congruence]. }
  destruct Hsc as [v ->]. simpl.
  match goal with
  | |- context [step_optimization.accumulate _ rest (PFloat ?z)] =>
      destruct (accumulate_float RT test_function rest Hrest z) as [y ->]
  end.
  now exists y.
Qed.

Lemma script_function_accepts_gathered_witness :
  exists score,
    step_optimization.function (RT := demo_runtime solve_nothing)
                               (fun _ => 2%float)
                               [Num (PFloat 1); Str "1.5k"; Str "2k"]
    = inr (PFloat score, [Num (PFloat 1); Str "1.5k"; Str "2k"]).
Proof.
  apply (script_function_accepts_gathered (demo_runtime solve_nothing)
           (fun _ => 2%float) 1.5%float 1 true false two_params).
  - reflexivity.
  - constructor; [intros H; discriminate H|].
    constructor; [intros _; vm_compute; discriminate|constructor].
  - intros _. vm_compute. discriminate.
Defined.

(** ** What the exceptions of [optimize_one] mean *)





